(** * convert_eprime: a shallow embedding of [convert_eprime.py]

    The module converts E-Prime logs to csv tables.  Python strings are
    modelled as [string], Python lists as [list], the dictionaries of
    [headers.pickle] as [gmap]s keyed by strings, and every operation
    that may raise is a computation in the [result] monad below, whose
    failures carry the Python exception that the source raises there. *)

From stdpp Require Import gmap strings list sorting.
From Stdlib Require Import ZArith Ascii.

Local Open Scope Z_scope.
Local Open Scope nat_scope.

(** ** Exceptions and the error monad *)

(** The exceptions that the module can raise.  A [ValueError] carries
    its message; [list.index] and [str.index] raise [ValueError] too. *)
Inductive exn : Type :=
  | ValueError (msg : string)
  | IndexError
  | AttributeError
  | TypeError.

Inductive result (A : Type) : Type :=
  | Ok (a : A)
  | Raise (e : exn).
Arguments Ok {A} a.
Arguments Raise {A} e.

#[global] Instance result_ret : MRet result := λ A a, Ok a.
#[global] Instance result_bind : MBind result :=
  λ A B f m, match m with Ok a => f a | Raise e => Raise e end.
#[global] Instance result_fmap : FMap result :=
  λ A B f m, match m with Ok a => Ok (f a) | Raise e => Raise e end.

(** [l[i]] for a non-negative index: raises [IndexError] out of range. *)
Definition getitem {A} (l : list A) (i : nat) : result A :=
  match l !! i with
  | Some x => Ok x
  | None => Raise IndexError
  end.

(** A monadic left fold: the body of a [for] loop run over [l]. *)
Fixpoint foldM {A B} (f : B → A → result B) (b : B) (l : list A) : result B :=
  match l with
  | [] => Ok b
  | x :: l' => b' ← f b x; foldM f b' l'
  end.

(** ** Strings *)

(** The null sentinel of the tables. *)
Definition NULL : string := "NULL".

Fixpoint str_take (n : nat) (s : string) : string :=
  match n, s with
  | S k, String a r => String a (str_take k r)
  | _, _ => ""
  end.

Fixpoint str_drop (n : nat) (s : string) : string :=
  match n, s with
  | S k, String _ r => str_drop k r
  | _, _ => s
  end.

(** [s * n] on a string. *)
Fixpoint str_repeat (s : string) (n : nat) : string :=
  match n with
  | 0 => ""
  | S k => s +:+ str_repeat s k
  end.

(** [list(s)]: iterating a string yields its one-character strings. *)
Fixpoint chars (s : string) : list string :=
  match s with
  | "" => []
  | String a r => String a "" :: chars r
  end.

(** [sub in s] *)
Fixpoint contains (sub s : string) : bool :=
  String.prefix sub s ||
  match s with
  | "" => false
  | String _ r => contains sub r
  end.

(** [s.find(sub)] as an option *)
Fixpoint str_find (sub s : string) : option nat :=
  if String.prefix sub s then Some 0
  else match s with
       | "" => None
       | String _ r => S <$> str_find sub r
       end.

(** [s.index(sub)] *)
Definition str_index (sub s : string) : result nat :=
  match str_find sub s with
  | Some i => Ok i
  | None => Raise (ValueError "substring not found")
  end.

(** [s.rfind(c)] for a one-character [c]; [-1] when absent. *)
Fixpoint rfind (c : ascii) (s : string) : Z :=
  match s with
  | "" => (-1)%Z
  | String a r =>
      let k := rfind c r in
      if (0 <=? k)%Z then (k + 1)%Z
      else if Ascii.eqb a c then 0%Z else (-1)%Z
  end.

(** ** Lists *)

(** [l[a:b]] for non-negative bounds. *)
Definition slice {A} (l : list A) (a b : nat) : list A :=
  take (b - a) (drop a l).

(** [l[a:b] = items] for non-negative bounds: the bounds are clipped to
    the length, an inverted range is empty at [a], and the list grows or
    shrinks when [items] has another length than the range. *)
Definition slice_assign {A} (l : list A) (a b : nat) (items : list A) : list A :=
  take a l ++ items ++ drop (a `max` b) l.

(** [l.index(x)] *)
Fixpoint list_index (x : string) (l : list string) : option nat :=
  match l with
  | [] => None
  | y :: l' => if decide (y = x) then Some 0 else S <$> list_index x l'
  end.

(** [repr(s)] for a byte string, which the message of [list.index]
    holds: the string between apostrophes, or between double quotes
    when it has an apostrophe and no double quote; the quote in use and
    the backslash are escaped by a backslash, tab, line feed and
    carriage return are written [\t], [\n] and [\r], and any other
    byte below 32 or above 126 as [\x] and two hexadecimal digits. *)
Definition QUOTE1 : ascii := "039"%char.
Definition QUOTE2 : ascii := "034"%char.
Definition BACKSLASH : ascii := "092"%char.

Fixpoint str_mem (c : ascii) (s : string) : bool :=
  match s with
  | "" => false
  | String a r => bool_decide (a = c) || str_mem c r
  end.

Definition hex_digit (n : nat) : ascii :=
  ascii_of_nat (if n <? 10 then 48 + n else 87 + n).

Definition repr_char (quote c : ascii) : string :=
  if decide (c = quote ∨ c = BACKSLASH) then String BACKSLASH (String c "")
  else if decide (c = "009"%char) then String BACKSLASH "t"
  else if decide (c = "010"%char) then String BACKSLASH "n"
  else if decide (c = "013"%char) then String BACKSLASH "r"
  else if (nat_of_ascii c <? 32) || (126 <? nat_of_ascii c)
       then String BACKSLASH
              (String "x"
                 (String (hex_digit (nat_of_ascii c / 16))
                    (String (hex_digit (nat_of_ascii c mod 16)) "")))
  else String c "".

Fixpoint repr_body (quote : ascii) (s : string) : string :=
  match s with
  | "" => ""
  | String c r => repr_char quote c +:+ repr_body quote r
  end.

Definition repr (s : string) : string :=
  let quote := if str_mem QUOTE1 s && negb (str_mem QUOTE2 s)
               then QUOTE2 else QUOTE1 in
  String quote (repr_body quote s +:+ String quote "").

(** [l.index(x)] raises [ValueError] with [repr(x)] in its message. *)
Definition index (l : list string) (x : string) : result nat :=
  match list_index x l with
  | Some i => Ok i
  | None => Raise (ValueError (repr x +:+ " is not in list"))
  end.

(** ** [_merge_lists]

    [lists] is a list of columns, so the early return on
    [type(lists[0]) != list] is not taken; [lists[0]] still raises on
    an empty [lists].  The loop visits [lists[i_col]] for every
    [i_col], the first column included. *)
Definition merge_step (option : string) (merged col : list string)
  : result (list string) :=
  if decide (option = "all_null") then
    mapM (λ i_row,
            x ← getitem col i_row;
            if decide (x = NULL) then Ok x else getitem merged i_row)
         (seq 0 (length merged))
  else if decide (option = "all_else") then
    mapM (λ i_row,
            x ← getitem col i_row;
            if decide (x ≠ NULL) then Ok x else getitem merged i_row)
         (seq 0 (length merged))
  else Ok merged.

Definition _merge_lists (lists : list (list string)) (option : string)
  : result (list string) :=
  merged ← getitem lists 0;
  foldM (merge_step option) merged lists.

(** ** [_strip], [_transpose], [_try_index] *)

Definition printable (a : ascii) : bool :=
  (31 <? nat_of_ascii a) && (nat_of_ascii a <? 127).

Fixpoint _strip (s : string) : string :=
  match s with
  | "" => ""
  | String a r => if printable a then String a (_strip r) else _strip r
  end.

Definition _transpose (list_ : list (list string)) : result (list (list string)) :=
  first ← getitem list_ 0;
  transposed_ ← mapM (λ col, mapM (λ row, getitem row col) list_)
                     (seq 0 (length first));
  Ok (filter (λ col, col ≠ []) transposed_).

(** [_try_index] returns the index, or [None] after printing [val];
    the printed lines are returned next to the value. *)
Definition _try_index (list_ : list string) (val : string)
  : option nat * list string :=
  match index list_ val with
  | Ok i => (Some i, [])
  | Raise _ => (None, [val])
  end.

(** ** [os.path.splitext] (POSIX) and [_det_file_type] *)

Fixpoint has_non_dot (s : string) : bool :=
  match s with
  | "" => false
  | String a r => negb (Ascii.eqb a ".") || has_non_dot r
  end.

(** [posixpath.splitext]: the extension starts at the last dot of the
    last path component, unless only dots precede it there. *)
Definition splitext (p : string) : string * string :=
  let sepIndex := rfind "/" p in
  let dotIndex := rfind "." p in
  if (sepIndex <? dotIndex)%Z then
    if has_non_dot (str_take (Z.to_nat dotIndex - Z.to_nat (sepIndex + 1))
                             (str_drop (Z.to_nat (sepIndex + 1)) p))
    then (str_take (Z.to_nat dotIndex) p, str_drop (Z.to_nat dotIndex) p)
    else (p, "")
  else (p, "").

Definition TAB : string := String (ascii_of_nat 9) "".

Definition _det_file_type (in_file : string) : result (string * nat) :=
  let '(fn, sf) := splitext in_file in
  if decide (sf = ".csv") then Ok (",", 0)
  else if decide (sf = ".txt") then Ok (TAB, 3)
  else if decide (String.length in_file = 0)
       then Raise (ValueError "Input file name is empty.")
       else Raise (ValueError "Input file name is not .csv or .txt.").

(** ** The raw-log pipeline shared by [text_to_csv] and [text_to_rcsv] *)

Definition LOGFRAME_START : string := "*** LogFrame Start ***".
Definition LOGFRAME_END : string := "*** LogFrame End ***".
Definition MISMATCH : string := "LogFrame Starts and Ends do not match up.".

(** [[i for i, x in enumerate(l) if P x]], counting from [i]. *)
Fixpoint indices_where {A} (P : A → bool) (i : nat) (l : list A) : list nat :=
  match l with
  | [] => []
  | x :: l' =>
      if P x then i :: indices_where P (S i) l' else indices_where P (S i) l'
  end.

Definition is_row (marker row : string) : bool := bool_decide (row = marker).
Definition not_null (cell : string) : bool := bool_decide (cell ≠ NULL).
Definition is_null (cell : string) : bool := bool_decide (cell = NULL).

(** [l[i] = x] and [m[i][j] = x] for non-negative indices. *)
Definition setitem {A} (l : list A) (i : nat) (x : A) : result (list A) :=
  if decide (i < length l) then Ok (<[i := x]> l) else Raise IndexError.

Definition setitem2 {A} (m : list (list A)) (i j : nat) (x : A)
  : result (list (list A)) :=
  row ← getitem m i;
  row' ← setitem row j x;
  setitem m i row'.

(** [l.pop(i)] for a non-negative index, keeping only the list. *)
Definition pop {A} (l : list A) (i : nat) : result (list A) :=
  if decide (i < length l) then Ok (delete i l) else Raise IndexError.

(** The marker validation (lines 106-111 and 192-197).  The [or] is
    short-circuit, and [start_index[0]] is read before [end_index[0]]. *)
Definition check_frames (start_index end_index : list nat) : result () :=
  if decide (length start_index ≠ length end_index)
  then Raise (ValueError MISMATCH)
  else
    s0 ← getitem start_index 0;
    e0 ← getitem end_index 0;
    if decide (e0 ≤ s0) then Raise (ValueError MISMATCH) else Ok ().

(** A field line is split at the first [": "]. *)
Definition split_field (line : string) : result (string * string) :=
  split_header_idx ← str_index ": " line;
  Ok (str_take split_header_idx line, str_drop (split_header_idx + 2) line).

(** The block loop (lines 117-122): the blocks and the header of each
    of their lines, in order. *)
Definition read_blocks (filtered_data : list string)
    (start_index end_index : list nat)
  : result (list (list string) * list string) :=
  foldM (λ '(data_by_rows, all_headers) i_row,
           s ← getitem start_index i_row;
           e ← getitem end_index i_row;
           let one_row := slice filtered_data (s + 1) e in
           hs ← mapM (λ line, fst <$> split_field line) one_row;
           Ok (data_by_rows ++ [one_row], all_headers ++ hs))
        ([], []) (seq 0 (length start_index)).

(** The NULL-prefilled table with its header cells (lines 126-133). *)
Definition null_matrix (n_rows : nat) (unique_headers : list string)
  : result (list (list string)) :=
  let null_col := replicate (n_rows + 1) NULL in
  let data_matrix := replicate (length unique_headers) null_col in
  foldM (λ data_matrix i_col,
           h ← getitem unique_headers i_col;
           setitem2 data_matrix i_col 0 h)
        data_matrix (seq 0 (length unique_headers)).

(** The cells reported by the blocks (lines 135-143). *)
Definition fill_matrix (n_rows : nat) (unique_headers : list string)
    (data_by_rows : list (list string)) (data_matrix : list (list string))
  : result (list (list string)) :=
  foldM (λ data_matrix i_row,
    row ← getitem data_by_rows i_row;
    foldM (λ data_matrix j_col,
      line ← getitem row j_col;
      split_header_idx ← str_index ": " line;
      foldM (λ data_matrix k_header,
        h ← getitem unique_headers k_header;
        if decide (str_take split_header_idx line = h)
        then setitem2 data_matrix k_header (i_row + 1)
                      (str_drop (split_header_idx + 2) line)
        else Ok data_matrix)
      data_matrix (seq 0 (length unique_headers)))
    data_matrix (seq 0 (length row)))
  data_matrix (seq 0 n_rows).

(** [col[:len(col) - 2]]; a negative bound yields the empty list here,
    as the truncated subtraction does. *)
Definition drop_last_two (col : list string) : list string :=
  take (length col - 2) col.

(** Policy A: [data_matrix[i_col][1:len(col)] = [col[r]] * (len(col) - 1)].
    [col] and [data_matrix[i_col]] are one list object, so the column
    read afterwards is the assigned one. *)
Definition trailing_fill (col : list string) (r : nat) : result (list string) :=
  v ← getitem col r;
  Ok (slice_assign col 1 (length col) (replicate (length col - 1) v)).

(** [len(rows_w_vals) == 2 and rows_w_vals[1] == len(col) - 1]
    (line 151): the row of the trailing value when the test holds. *)
Definition trailing_csv (col : list string) : option nat :=
  match indices_where not_null 0 col with
  | [_; r1] => if decide (r1 = length col - 1) then Some r1 else None
  | _ => None
  end.

(** The test of line 237, which also accepts the row before the last. *)
Definition trailing_rcsv (col : list string) : option nat :=
  match indices_where not_null 0 col with
  | [_; r1] =>
      if decide (r1 = length col - 1 ∨ r1 = length col - 2)
      then Some r1 else None
  | _ => None
  end.

(** The column loop of [text_to_csv] (lines 147-154), before the cut. *)
Definition fill_column_csv (col : list string) : result (list string) :=
  match trailing_csv col with
  | Some r1 => trailing_fill col r1
  | None => Ok col
  end.

(** Policy B (lines 240-244).  The right-hand side is the string
    [col[...] * n_rows_to_fill]; assigning a string to a slice stores
    its characters one by one. *)
Definition block_fill_step (rows_w_vals : list nat) (col : list string)
    (null_row : nat) : result (list string) :=
  prev ← getitem rows_w_vals (null_row - 1);
  cur ← getitem rows_w_vals null_row;
  let first := prev + 1 in
  let last := cur in
  let n_rows_to_fill := last - first in
  v ← getitem col cur;
  Ok (slice_assign col first last (chars (str_repeat v n_rows_to_fill))).

Definition block_fill (rows_w_vals : list nat) (col : list string)
  : result (list string) :=
  foldM (block_fill_step rows_w_vals) col (seq 1 (length rows_w_vals - 1)).

(** The column loop of [text_to_rcsv] (lines 234-244), before the cut.
    [col[0]] is read once for every fragment of [fill_block]. *)
Definition fill_column (fill_block : list string) (col : list string)
  : result (list string) :=
  match trailing_rcsv col with
  | Some r1 => trailing_fill col r1
  | None =>
      matches ← mapM (λ header, c0 ← getitem col 0; Ok (contains header c0))
                     fill_block;
      if existsb id matches
      then block_fill (indices_where not_null 0 col) col
      else Ok col
  end.

(** ** The configuration read from [headers.pickle]

    The seven module-level variables.  [d.get(k)] is the lookup [d !! k];
    where the source goes on to use a missing entry ([None]), the
    exception of that use is raised. *)
Record pickle : Type := Pickle {
  headers : gmap string (list string);
  remnulls : gmap string bool;
  replace_dict : gmap string (gmap string (gmap string string));
  fill_block : list string;
  merge_cols : gmap string (list (list string));
  merge_col_names : gmap string (list string);
  null_cols : gmap string (list string)
}.

(** Using [None] where a value is needed raises [e]. *)
Definition not_none {A} (e : exn) (o : option A) : result A :=
  match o with
  | Some a => Ok a
  | None => Raise e
  end.

(** The row pruner (lines 289-291): the indices of the null cells of
    the merged column, highest first, are popped one after the other. *)
Definition prune_rows (out_matrix : list (list string))
    (merged_nulls_list : list string) : result (list (list string)) :=
  let null_index := reverse (indices_where is_null 0 merged_nulls_list) in
  foldM pop out_matrix null_index.

(** Lines 261-270: one merged column per merge group. *)
Definition merge_groups (header_row : list string)
    (data_matrix : list (list string))
    (columns_to_merge : option (list (list string)))
    (merge_col_names_list : option (list string))
  : result (list (list string)) :=
  names ← not_none TypeError merge_col_names_list;
  foldM (λ merged_data i_merge,
           groups ← not_none TypeError columns_to_merge;
           group ← getitem groups i_merge;
           merge_col_nums ← mapM (index header_row) group;
           data_to_merge ← mapM (getitem data_matrix) merge_col_nums;
           merged ← _merge_lists data_to_merge "all_else";
           name ← getitem names i_merge;
           merged ← setitem merged 0 name;
           Ok (merged_data ++ [merged]))
        [] (seq 0 (length names)).

(** Lines 249-281 of [text_to_rcsv]: renaming, selection and merging.
    The desired headers and their indices come with the table, for the
    lines that follow. *)
Definition select_table (header_list : option (list string))
    (replacements : option (gmap string string))
    (columns_to_merge : option (list (list string)))
    (merge_col_names_list : option (list string))
    (data_matrix : list (list string))
  : result (list string * list nat * list (list string)) :=
  t_data_matrix ← _transpose data_matrix;
  row0 ← getitem t_data_matrix 0;
  header_row ← mapM (λ item, d ← not_none AttributeError replacements;
                             Ok (default item (d !! item))) row0;
  let t_data_matrix := <[0 := header_row]> t_data_matrix in
  header_list ← not_none TypeError header_list;
  header_index ← mapM (index header_row) header_list;
  merged_data ← merge_groups header_row data_matrix
                             columns_to_merge merge_col_names_list;
  out_matrix ← mapM (λ i_row, row ← getitem t_data_matrix i_row;
                              mapM (getitem row) header_index)
                    (seq 0 (length t_data_matrix));
  out_matrix ←
    (if decide (length merged_data ≠ 0) then
       t_merged_data ← _transpose merged_data;
       mapM (λ i_row, row ← getitem out_matrix i_row;
                      extra ← getitem t_merged_data i_row;
                      Ok (row ++ extra))
            (seq 0 (length out_matrix))
     else Ok out_matrix);
  Ok (header_list, header_index, out_matrix).

(** Lines 284-287: the columns of [data_matrix] that [null_cols] names
    for the task, found through the desired headers. *)
Definition null_check_columns (header_list : list string)
    (header_index : list nat) (null_column_names : option (list string))
    (data_matrix : list (list string)) : result (list (list string)) :=
  null_column_names ← not_none TypeError null_column_names;
  null_column_index ← mapM (λ column, i ← index header_list column;
                                      getitem header_index i)
                           null_column_names;
  mapM (getitem data_matrix) null_column_index.

(** Lines 248-291 of [text_to_rcsv]: renaming, selection and merging,
    then the [all_null] merge of the null-check columns and the pruning
    of the rows it marks, from the filled and cut [data_matrix]. *)
Definition reduce_table (header_list : option (list string))
    (replacements : option (gmap string string))
    (columns_to_merge : option (list (list string)))
    (merge_col_names_list : option (list string))
    (null_column_names : option (list string))
    (data_matrix : list (list string)) : result (list (list string)) :=
  '(header_list, header_index, out_matrix) ←
      select_table header_list replacements columns_to_merge
                   merge_col_names_list data_matrix;
  nulls_to_merge ← null_check_columns header_list header_index
                                      null_column_names data_matrix;
  merged_nulls_list ← _merge_lists nulls_to_merge "all_null";
  prune_rows out_matrix merged_nulls_list.

Section Pipeline.

(** [list(set(all_headers))]: the distinct headers in the order in
    which the set happens to be iterated. *)
Variable list_set : list string → list string.

(** Lines 103-143 (and 189-229): from the lines of the log to the
    dense table, one column per discovered header. *)
Definition dense_table (text_data : list string)
  : result (list (list string)) :=
  let filtered_data := _strip <$> text_data in
  let start_index := indices_where (is_row LOGFRAME_START) 0 filtered_data in
  let end_index := indices_where (is_row LOGFRAME_END) 0 filtered_data in
  _ ← check_frames start_index end_index;
  '(data_by_rows, all_headers) ←
      read_blocks filtered_data start_index end_index;
  let unique_headers := list_set all_headers in
  data_matrix ← null_matrix (length start_index) unique_headers;
  fill_matrix (length start_index) unique_headers data_by_rows data_matrix.

(** [text_to_csv]: the rows handed to the csv writer. *)
Definition text_to_csv (text_data : list string)
  : result (list (list string)) :=
  data_matrix ← dense_table text_data;
  data_matrix ← mapM (λ col, drop_last_two <$> fill_column_csv col)
                     data_matrix;
  _transpose data_matrix.

(** [text_to_rcsv]: the rows handed to the csv writer.  The entry of
    the task in [replace_dict] is read before the log is. *)
Definition text_to_rcsv (cfg : pickle) (text_data : list string)
    (edat_file task : string) : result (list (list string)) :=
  let edat_suffix := (splitext edat_file).2 in
  let header_list := headers cfg !! task in
  by_suffix ← not_none AttributeError (replace_dict cfg !! task);
  let replacements := by_suffix !! edat_suffix in
  data_matrix ← dense_table text_data;
  data_matrix ← mapM (λ col, drop_last_two <$> fill_column (fill_block cfg) col)
                     data_matrix;
  reduce_table header_list replacements (merge_cols cfg !! task)
               (merge_col_names cfg !! task) (null_cols cfg !! task)
               data_matrix.

End Pipeline.

(** ** [etext_to_rcsv] *)

(** [s.replace(old, new)] for a non-empty [old]; [skip] counts the
    characters of a match still to be passed over. *)
Fixpoint replace_go (old new : string) (skip : nat) (s : string) : string :=
  match s with
  | "" => ""
  | String a r =>
      match skip with
      | S k => replace_go old new k r
      | 0 =>
          if String.prefix old s
          then new +:+ replace_go old new (String.length old - 1) r
          else String a (replace_go old new 0 r)
      end
  end.

Definition str_replace (old new s : string) : string := replace_go old new 0 s.

(** Lines 56-57: for each desired header, [_try_index] is called in the
    filter and, when it found the header, once more for the element;
    the second call returns the same index and prints nothing.  The
    printed lines come with the result. *)
Fixpoint select_headers (wholefile : list (list string))
    (header_list : list string) : list string * result (list nat) :=
  match header_list with
  | [] => ([], Ok [])
  | hed :: header_list' =>
      match getitem wholefile 0 with
      | Raise e => ([], Raise e)
      | Ok row0 =>
          let '(found, printed) := _try_index row0 hed in
          let '(printed', rest) := select_headers wholefile header_list' in
          (printed ++ printed',
           match found with
           | Some i => cons i <$> rest
           | None => rest
           end)
      end
  end.

(** Lines 64-74 *)
Definition handle_nulls (remove : bool) (out_arr : list (list string))
  : result (list (list string)) :=
  if remove then
    let null_index :=
      reverse (indices_where (λ row, existsb is_null row) 0 out_arr) in
    foldM pop out_arr null_index
  else Ok (map (map (str_replace "NULL" "NaN")) out_arr).

(** [etext_to_rcsv]: [wholefile] is what [csv.reader] yields for
    [in_file]; the result is the printed names and the rows handed to
    the csv writer. *)
Definition etext_to_rcsv (cfg : pickle) (in_file : string)
    (wholefile : list (list string)) (task : string)
  : list string * result (list (list string)) :=
  let header_list := headers cfg !! task in
  match
    '(delimiter_, rem_lines) ← _det_file_type in_file;
    wholefile ← foldM (λ wholefile _, pop wholefile 0) wholefile
                      (seq 0 rem_lines);
    header_list ← not_none TypeError header_list;
    Ok (wholefile, header_list)
  with
  | Raise e => ([], Raise e)
  | Ok (wholefile, header_list) =>
      let '(printed, header_index) := select_headers wholefile header_list in
      (printed,
       header_index ← header_index;
       out_arr ← mapM (λ i_row, row ← getitem wholefile i_row;
                                mapM (getitem row) header_index)
                      (seq 0 (length wholefile));
       handle_nulls (default false (remnulls cfg !! task)) out_arr)
  end.
(** * Vocabulary of the statements *)

(** The value that one step of an [all_else] (resp. [all_null]) merge
    leaves at a row: [m] is the accumulated cell, [x] the source cell. *)
Definition pick_else (m x : string) : string := if decide (x ≠ NULL) then x else m.
Definition pick_null (m x : string) : string := if decide (x = NULL) then x else m.

(** A line that is no frame marker once sanitized. *)
Definition plain_line (row : string) : Prop :=
  _strip row ≠ LOGFRAME_START ∧ _strip row ≠ LOGFRAME_END.

(** [list(set(l))] holds the elements of [l], each once, in some order. *)
Definition enumerates_sets (list_set : list string → list string) : Prop :=
  ∀ l, NoDup (list_set l) ∧ ∀ x, x ∈ list_set l ↔ x ∈ l.

(** A configuration for one task, used in the examples. *)
Definition cfg_demo : pickle := {|
  headers := {[ "T" := ["Stim"; "Proc"] ]};
  remnulls := ∅;
  replace_dict := {[ "T" := {[ ".edat2" := {[ "Procedure" := "Proc" ]} ]} ]};
  fill_block := ["Proc"];
  merge_cols := {[ "T" := [] ]};
  merge_col_names := {[ "T" := [] ]};
  null_cols := {[ "T" := ["Stim"] ]} |}.

(** The block-fill loop read over the consecutive pairs of
    [rows_w_vals]: [prev] is the earlier position of the next pair and
    [rest] the positions still to come. *)
Fixpoint fill_pairs (prev : nat) (rest : list nat) (col : list string)
  : result (list string) :=
  match rest with
  | [] => Ok col
  | cur :: rest' =>
      v ← getitem col cur;
      fill_pairs cur rest'
        (slice_assign col (prev + 1) cur
           (chars (str_repeat v (cur - (prev + 1)))))
  end.

(** The elements of [l] whose index, counted from [k], is not [dead],
    in their order. *)
Fixpoint rows_without {A} (dead : nat → bool) (k : nat) (l : list A) : list A :=
  match l with
  | [] => []
  | x :: l' =>
      if dead k then rows_without dead (S k) l'
      else x :: rows_without dead (S k) l'
  end.

(** A sanitized line that is no frame marker, and one that has the
    separator of a field. *)
Definition no_marker (line : string) : Prop :=
  line ≠ LOGFRAME_START ∧ line ≠ LOGFRAME_END.
Definition field_line (line : string) : Prop := is_Some (str_find ": " line).

(** The name of a field line: what precedes its first [": "]. *)
Definition field_name (line : string) : string :=
  match str_find ": " line with
  | Some i => str_take i line
  | None => line
  end.

(** A log of correctly nested frames: each frame is a start marker, the
    lines of a block and an end marker, after a gap of other lines;
    [post] follows the last frame. *)
Fixpoint frames_log (segs : list (list string * list string))
    (post : list string) : list string :=
  match segs with
  | [] => post
  | (gap, block) :: segs' =>
      gap ++ LOGFRAME_START :: block ++ LOGFRAME_END :: frames_log segs' post
  end.

(** The positions of the start and of the end markers of such a log
    that begins at line [k]. *)
Fixpoint frame_starts (k : nat) (segs : list (list string * list string))
  : list nat :=
  match segs with
  | [] => []
  | (gap, block) :: segs' =>
      (k + length gap)
        :: frame_starts (k + length gap + length block + 2) segs'
  end.

Fixpoint frame_ends (k : nat) (segs : list (list string * list string))
  : list nat :=
  match segs with
  | [] => []
  | (gap, block) :: segs' =>
      (k + length gap + 1 + length block)
        :: frame_ends (k + length gap + length block + 2) segs'
  end.

Definition well_formed_frames (segs : list (list string * list string))
    (post : list string) : Prop :=
  Forall (λ seg, Forall no_marker seg.1 ∧ Forall field_line seg.2) segs ∧
  Forall no_marker post.

(** The end of a line as [list(fo)] yields it. *)
Definition NL : string := String (ascii_of_nat 10) "".

(** A raw log of four frames whose second frame alone reports
    [Procedure], with a value of two characters. *)
Definition log_four_trials : list string :=
  (λ line, line +:+ NL) <$>
  ["*** LogFrame Start ***"; "Stim: 1"; "*** LogFrame End ***";
   "*** LogFrame Start ***"; "Stim: 2"; "Procedure: AB"; "*** LogFrame End ***";
   "*** LogFrame Start ***"; "Stim: 3"; "*** LogFrame End ***";
   "*** LogFrame Start ***"; "Stim: 4"; "*** LogFrame End ***"].

(** A raw log that holds a header section and no frame. *)
Definition log_no_frame : list string :=
  (λ line, line +:+ NL) <$>
  ["*** Header Start ***"; "VersionPersist: 1"; "*** Header End ***"].

(** All columns of a table hold [n] cells. *)
Abbreviation same_length n := (Forall (λ col : list string, length col = n)).

(** Every character of [s] satisfies [P]. *)
Fixpoint str_forall (P : ascii → bool) (s : string) : bool :=
  match s with
  | "" => true
  | String a r => P a && str_forall P r
  end.

(** The value of a field line: what follows its first [": "]. *)
Definition field_value (line : string) : string :=
  match str_find ": " line with
  | Some i => str_drop (i + 2) line
  | None => line
  end.

(** The cell that a block gives the column [h], starting from [acc]:
    the value of the last line of the block whose name is [h]. *)
Fixpoint cell_from (acc h : string) (block : list string) : string :=
  match block with
  | [] => acc
  | line :: rest =>
      cell_from (if decide (field_name line = h) then field_value line else acc)
                h rest
  end.

(** The cell of column [h] for the trial of [block]: null when no line
    of the block reports [h]. *)
Definition cell_of (h : string) (block : list string) : string :=
  cell_from NULL h block.

(** The columns, as a function of their header, after a field line
    (after the lines of a block) has been written to the cells [i]. *)
Definition upd_line (i : nat) (c : string → list string) (line : string)
  : string → list string :=
  λ h, if decide (field_name line = h)
       then <[i := field_value line]> (c h) else c h.

Fixpoint upd_lines (i : nat) (c : string → list string) (block : list string)
  : string → list string :=
  match block with
  | [] => c
  | line :: rest => upd_lines i (upd_line i c line) rest
  end.

(** The value of a computation that does not raise. *)
Definition ok_or {A} (d : A) (r : result A) : A :=
  match r with
  | Ok a => a
  | Raise _ => d
  end.

(** A column of [text_to_csv] after its fill and its cut. *)
Definition csv_column (col : list string) : list string :=
  drop_last_two (ok_or col (fill_column_csv col)).

(** The dense column of the header [h] for the trials of [blocks]. *)
Definition dense_column (blocks : list (list string)) (h : string) : list string :=
  h :: (cell_of h <$> blocks).


(** The number of lines of a sanitized log that are the marker. *)
Definition count_rows (marker : string) (log : list string) : nat :=
  length (filter (λ row, row = marker) log).

(** The log has a start marker, and an end marker that no start marker
    precedes. *)
Definition end_before_start (log : list string) : Prop :=
  LOGFRAME_START ∈ log ∧
  ∃ i_end, log !! i_end = Some LOGFRAME_END ∧
           ∀ j, j < i_end → log !! j ≠ Some LOGFRAME_START.

(** A character that [repr] copies between apostrophes: printable, and
    neither the apostrophe nor the backslash. *)
Definition plain_char (c : ascii) : bool :=
  printable c && negb (bool_decide (c = QUOTE1))
              && negb (bool_decide (c = BACKSLASH)).
(** * Theorems *)

(** ** The error monad *)

Lemma bind_Ok {A B} (f : A → result B) (m : result A) (a : A) :
  m = Ok a → m ≫= f = f a.
Proof. by intros ->. Qed.

Lemma bind_Ok_inv {A B} (f : A → result B) (m : result A) (b : B) :
  m ≫= f = Ok b → ∃ a, m = Ok a ∧ f a = Ok b.
Proof. destruct m as [a|e]; [|done]. intros H. by exists a. Qed.

Lemma getitem_Ok {A} (l : list A) i x : l !! i = Some x → getitem l i = Ok x.
Proof. unfold getitem. by intros ->. Qed.

Lemma getitem_Raise {A} (l : list A) i :
  length l ≤ i → getitem l i = Raise IndexError.
Proof. intros H. unfold getitem. by rewrite lookup_ge_None_2. Qed.

Lemma mapM_cons {A B} (f : A → result B) (x : A) (l : list A) :
  mapM f (x :: l) = y ← f x; k ← mapM f l; Ok (y :: k).
Proof. reflexivity. Qed.

Lemma mapM_Ok_inv {A B} (f : A → result B) (l : list A) ys :
  mapM f l = Ok ys → Forall2 (λ x y, f x = Ok y) l ys.
Proof.
  revert ys. induction l as [|x l IH]; intros ys.
  - intros [= <-]. constructor.
  - rewrite mapM_cons.
    intros (y & Hy & (k & Hk & [= <-])%bind_Ok_inv)%bind_Ok_inv.
    constructor; [done|]. by apply IH.
Qed.

(** A comprehension over [range(k, k + len(l))] whose element at
    position [i] evaluates to [l[i]] builds [l]. *)
Lemma mapM_seq_Ok {B} (f : nat → result B) (l : list B) k :
  (∀ i y, l !! i = Some y → f (k + i) = Ok y) →
  mapM f (seq k (length l)) = Ok l.
Proof.
  revert k. induction l as [|y l IH]; intros k Hf; [done|].
  cbn [length seq mapM]. rewrite <- (Nat.add_0_r k) at 1.
  rewrite (Hf 0 y eq_refl). cbn.
  rewrite IH; [done|]. intros i z Hz.
  replace (S k + i) with (k + S i) by lia. by apply Hf.
Qed.

(** ** [_merge_lists] *)




Lemma merge_step_all_else merged col :
  length col = length merged →
  merge_step "all_else" merged col = Ok (zip_with pick_else merged col).
Proof.
  intros Hlen. unfold merge_step.
  rewrite decide_False; [|done]. rewrite decide_True; [|done].
  replace (length merged) with (length (zip_with pick_else merged col))
    by (rewrite length_zip_with; lia).
  apply mapM_seq_Ok. intros i y (m & x & -> & Hm & Hx)%lookup_zip_with_Some.
  cbn. rewrite (getitem_Ok _ _ _ Hx). cbn. unfold pick_else.
  destruct (decide (x ≠ NULL)); [done|]. by apply getitem_Ok.
Qed.

Lemma merge_step_all_null merged col :
  length col = length merged →
  merge_step "all_null" merged col = Ok (zip_with pick_null merged col).
Proof.
  intros Hlen. unfold merge_step. rewrite decide_True; [|done].
  replace (length merged) with (length (zip_with pick_null merged col))
    by (rewrite length_zip_with; lia).
  apply mapM_seq_Ok. intros i y (m & x & -> & Hm & Hx)%lookup_zip_with_Some.
  cbn. rewrite (getitem_Ok _ _ _ Hx). cbn. unfold pick_null.
  destruct (decide (x = NULL)); [done|]. by apply getitem_Ok.
Qed.

Lemma fold_all_else (cols : list (list string)) : ∀ merged : list string,
  Forall (λ col, length col = length merged) cols →
  ∃ r, foldM (merge_step "all_else") merged cols = Ok r ∧
       length r = length merged ∧
       ∀ i_row,
         (∀ k col x, cols !! k = Some col → col !! i_row = Some x → x ≠ NULL →
            (∀ j col', k < j → cols !! j = Some col' → col' !! i_row = Some NULL) →
            r !! i_row = Some x) ∧
         ((∀ k col, cols !! k = Some col → col !! i_row = Some NULL) →
            r !! i_row = merged !! i_row).
Proof.
  induction cols as [|c cols IH]; intros merged Hall.
  { exists merged. split; [done|]. split; [done|]. intros i_row. split; [|done].
    intros k col x Hk. by rewrite lookup_nil in Hk. }
  apply Forall_cons in Hall as [Hc Hall].
  cbn [foldM]. rewrite merge_step_all_else; [|done]. cbn.
  set (merged1 := zip_with pick_else merged c).
  assert (Hlen1 : length merged1 = length merged)
    by (unfold merged1; rewrite length_zip_with; lia).
  destruct (IH merged1) as (r & Hr & Hlen & Hrows).
  { eapply Forall_impl; [exact Hall|]. intros col Hcol. cbn in Hcol. lia. }
  exists r. split; [done|]. split; [lia|]. intros i_row.
  destruct (Hrows i_row) as [Hlast Hnone]. split.
  - intros [|k] col x Hk Hx Hnn Hlater.
    + cbn in Hk. injection Hk as ->.
      rewrite Hnone.
      * unfold merged1. rewrite lookup_zip_with, Hx.
        destruct (merged !! i_row) as [m|] eqn:Hm.
        -- cbn. unfold pick_else. by rewrite decide_True.
        -- apply lookup_lt_Some in Hx. apply lookup_ge_None in Hm. lia.
      * intros j col' Hj. apply (Hlater (S j)); [lia|done].
    + apply (Hlast k col x); [done..|].
      intros j col' Hkj Hj. apply (Hlater (S j)); [lia|done].
  - intros Hnull. rewrite Hnone.
    + unfold merged1. rewrite lookup_zip_with, (Hnull 0 c eq_refl).
      destruct (merged !! i_row) as [m|]; [|done]. cbn. unfold pick_else.
      by rewrite decide_False; [|intros H; apply H].
    + intros k col Hk. by apply (Hnull (S k)).
Qed.

(** Under [all_null] a row of the result is null as soon as one
    source column is null there, and holds the cell of the first
    column otherwise. *)
Lemma fold_all_null (cols : list (list string)) : ∀ merged : list string,
  Forall (λ col, length col = length merged) cols →
  ∃ r, foldM (merge_step "all_null") merged cols = Ok r ∧
       length r = length merged ∧
       ∀ i_row,
         ((∃ k col, cols !! k = Some col ∧ col !! i_row = Some NULL) →
            r !! i_row = Some NULL) ∧
         ((∀ k col x, cols !! k = Some col → col !! i_row = Some x → x ≠ NULL) →
            r !! i_row = merged !! i_row).
Proof.
  induction cols as [|c cols IH]; intros merged Hall.
  { exists merged. split; [done|]. split; [done|]. intros i_row. split; [|done].
    intros (k & col & Hk & _). by rewrite lookup_nil in Hk. }
  apply Forall_cons in Hall as [Hc Hall].
  cbn [foldM]. rewrite merge_step_all_null; [|done]. cbn.
  set (merged1 := zip_with pick_null merged c).
  assert (Hlen1 : length merged1 = length merged)
    by (unfold merged1; rewrite length_zip_with; lia).
  destruct (IH merged1) as (r & Hr & Hlen & Hrows).
  { eapply Forall_impl; [exact Hall|]. intros col Hcol. cbn in Hcol. lia. }
  exists r. split; [done|]. split; [lia|]. intros i_row.
  destruct (Hrows i_row) as [Hany Hnone].
  assert (Hstep : ∀ x, c !! i_row = Some x →
            merged1 !! i_row = Some (pick_null (default x (merged !! i_row)) x)).
  { intros x Hx. unfold merged1. rewrite lookup_zip_with, Hx.
    destruct (merged !! i_row) as [m|] eqn:Hm; [done|].
    apply lookup_lt_Some in Hx. apply lookup_ge_None in Hm. lia. }
  split.
  - intros (k & col & Hk & Hnull).
    destruct (decide (Exists (λ col : list string, col !! i_row = Some NULL) cols))
      as [Hex|Hex].
    { apply Hany. apply Exists_exists in Hex as (col' & Hin & Hn).
      apply list_elem_of_lookup in Hin as [k' Hk']. eauto. }
    assert (Hlater : ¬ ∃ k col, cols !! k = Some col ∧ col !! i_row = Some NULL).
    { intros (k' & col' & Hk' & Hn). apply Hex, Exists_exists. exists col'.
      split; [by eapply list_elem_of_lookup_2 | done]. }
    destruct k as [|k]; [|exfalso; apply Hlater; eauto].
    cbn in Hk. injection Hk as ->. rewrite Hnone.
    + rewrite (Hstep _ Hnull). unfold pick_null. by rewrite decide_True.
    + intros k' col' x Hk' Hx ->. apply Hlater. eauto.
  - intros Hnn. rewrite Hnone.
    + destruct (c !! i_row) as [x|] eqn:Hx.
      * rewrite (Hstep _ eq_refl). unfold pick_null.
        rewrite decide_False by by apply (Hnn 0 c).
        destruct (merged !! i_row) as [m|] eqn:Hm; [done|].
        apply lookup_lt_Some in Hx. apply lookup_ge_None in Hm. lia.
      * unfold merged1. rewrite lookup_zip_with, Hx.
        destruct (merged !! i_row) as [m|] eqn:Hm; [|done].
        apply lookup_lt_Some in Hm. apply lookup_ge_None in Hx. lia.
    + intros k col x Hk. by apply (Hnn (S k)).
Qed.

(** C2, amended: under [all_null] a row of the merge of equally long
    columns is null whenever one of the columns is null at that row,
    and is the cell of the first column otherwise; so the merge of
    [["NULL";"X";"NULL"]] and [["Y";"NULL";"Z"]] is null in all three
    rows. *)
Theorem merge_all_null_any_null
    (lists : list (list string)) (first : list string) :
  lists !! 0 = Some first →
  Forall (λ col, length col = length first) lists →
  ∃ merged,
    _merge_lists lists "all_null" = Ok merged ∧
    length merged = length first ∧
    ∀ i_row,
      ((∃ k col, lists !! k = Some col ∧ col !! i_row = Some NULL) →
         merged !! i_row = Some NULL) ∧
      ((∀ k col x, lists !! k = Some col → col !! i_row = Some x → x ≠ NULL) →
         merged !! i_row = first !! i_row).
Proof.
  intros H0 Hall. unfold _merge_lists. rewrite (getitem_Ok _ _ _ H0). cbn.
  by apply fold_all_null.
Qed.

Lemma merge_all_null_any_null_witness :
  _merge_lists [["NULL"; "X"; "NULL"]; ["Y"; "NULL"; "Z"]] "all_null"
  = Ok ["NULL"; "NULL"; "NULL"].
Proof.
  destruct (merge_all_null_any_null
              [["NULL"; "X"; "NULL"]; ["Y"; "NULL"; "Z"]] ["NULL"; "X"; "NULL"])
    as (merged & -> & Hlen & Hrows).
  - reflexivity.
  - repeat constructor.
  - f_equal.
    destruct merged as [|a [|b [|c [|]]]]; try discriminate Hlen.
    assert (Some a = Some NULL) as [= ->].
    { apply (proj1 (Hrows 0)). by exists 0, ["NULL"; "X"; "NULL"]. }
    assert (Some b = Some NULL) as [= ->].
    { apply (proj1 (Hrows 1)). by exists 1, ["Y"; "NULL"; "Z"]. }
    assert (Some c = Some NULL) as [= ->].
    { apply (proj1 (Hrows 2)). by exists 0, ["NULL"; "X"; "NULL"]. }
    reflexivity.
Defined.

(** C2 as stated fails: row 1 of the result is not ["X"]. *)
Lemma merge_all_null_overwrites_X :
  _merge_lists [["NULL"; "X"; "NULL"]; ["Y"; "NULL"; "Z"]] "all_null"
    = Ok ["NULL"; "NULL"; "NULL"] ∧
  Ok ["NULL"; "NULL"; "NULL"] ≠ Ok ["NULL"; "X"; "NULL"].
Proof. split; [reflexivity | discriminate]. Qed.

(** C3: for a non-empty list of equally long columns, the [all_else]
    merge returns, at each row, the cell of the last column that is
    not null there, and the cell of the first column when all are
    null there. *)
Theorem merge_all_else_last_non_null
    (lists : list (list string)) (first : list string) :
  lists !! 0 = Some first →
  Forall (λ col, length col = length first) lists →
  ∃ merged,
    _merge_lists lists "all_else" = Ok merged ∧
    length merged = length first ∧
    ∀ i_row,
      (∀ k col x,
         lists !! k = Some col → col !! i_row = Some x → x ≠ NULL →
         (∀ j col', k < j → lists !! j = Some col' → col' !! i_row = Some NULL) →
         merged !! i_row = Some x) ∧
      ((∀ k col, lists !! k = Some col → col !! i_row = Some NULL) →
         merged !! i_row = first !! i_row).
Proof.
  intros H0 Hall. unfold _merge_lists. rewrite (getitem_Ok _ _ _ H0). cbn.
  by apply fold_all_else.
Qed.

Lemma merge_all_else_last_non_null_witness :
  _merge_lists [["NULL"; "X"; "NULL"]; ["Y"; "NULL"; "Z"]] "all_else"
  = Ok ["Y"; "X"; "Z"].
Proof.
  destruct (merge_all_else_last_non_null
              [["NULL"; "X"; "NULL"]; ["Y"; "NULL"; "Z"]] ["NULL"; "X"; "NULL"])
    as (merged & -> & Hlen & Hrows).
  - reflexivity.
  - repeat constructor.
  - f_equal.
    destruct merged as [|a [|b [|c [|]]]]; try discriminate Hlen.
    pose proof (proj1 (Hrows 0) 1 _ "Y" eq_refl eq_refl) as Ha.
    pose proof (proj1 (Hrows 1) 0 _ "X" eq_refl eq_refl) as Hb.
    pose proof (proj1 (Hrows 2) 1 _ "Z" eq_refl eq_refl) as Hc.
    cbn in Ha, Hb, Hc.
    assert (Some a = Some "Y") as [= ->].
    { apply Ha; [done|]. intros [|[|j]] col' Hj Hl; try lia; discriminate Hl. }
    assert (Some b = Some "X") as [= ->].
    { apply Hb; [done|]. intros [|[|j]] col' Hj Hl; try lia.
      - by injection Hl as <-.
      - discriminate Hl. }
    assert (Some c = Some "Z") as [= ->].
    { apply Hc; [done|]. intros [|[|j]] col' Hj Hl; try lia; discriminate Hl. }
    reflexivity.
Defined.

(** ** Strings *)

Lemma str_app_nil (s : string) : "" +:+ s = s.
Proof. reflexivity. Qed.

Lemma str_app_cons a (s t : string) : String a s +:+ t = String a (s +:+ t).
Proof. reflexivity. Qed.

Lemma str_app_assoc (s t u : string) : (s +:+ t) +:+ u = s +:+ t +:+ u.
Proof.
  induction s as [|a s IH]; [done|]. rewrite !str_app_cons. by rewrite IH.
Qed.

Lemma str_length_app (s t : string) :
  String.length (s +:+ t) = String.length s + String.length t.
Proof.
  induction s as [|a s IH]; [done|]. rewrite str_app_cons. cbn. by rewrite IH.
Qed.

Lemma str_drop_app (s t : string) : str_drop (String.length s) (s +:+ t) = t.
Proof. induction s as [|a s IH]; [by destruct t|]. by rewrite str_app_cons. Qed.

Lemma str_take_app (s t : string) : str_take (String.length s) (s +:+ t) = s.
Proof.
  induction s as [|a s IH]; [by destruct t|]. rewrite str_app_cons. cbn.
  by rewrite IH.
Qed.

(** ** [rfind] and [splitext] *)

Lemma rfind_range c s : (-1 ≤ rfind c s < Z.of_nat (String.length s))%Z.
Proof.
  induction s as [|a s IH]; cbn [rfind String.length]; [lia|].
  destruct (Z.leb_spec 0 (rfind c s)); [lia|]. destruct (Ascii.eqb a c); lia.
Qed.

Lemma rfind_app_present c s t :
  (0 ≤ rfind c t)%Z →
  rfind c (s +:+ t) = (Z.of_nat (String.length s) + rfind c t)%Z.
Proof.
  intros Ht. induction s as [|a s IH]; [by rewrite str_app_nil|].
  rewrite str_app_cons. cbn [rfind String.length]. rewrite IH.
  destruct (Z.leb_spec 0 (Z.of_nat (String.length s) + rfind c t)); lia.
Qed.

Lemma rfind_app_absent c s t :
  rfind c t = (-1)%Z → rfind c (s +:+ t) = rfind c s.
Proof.
  intros Ht. induction s as [|a s IH]; [by rewrite str_app_nil|].
  rewrite str_app_cons. cbn [rfind]. by rewrite IH.
Qed.

Lemma rfind_absent c s : contains (String c "") s = false → rfind c s = (-1)%Z.
Proof.
  induction s as [|a s IH]; [done|]. cbn [contains rfind String.prefix].
  intros [Ha Hs]%orb_false_iff. rewrite (IH Hs). cbn.
  destruct (Ascii.eqb_spec a c) as [->|]; [|done].
  destruct (ascii_dec c c); [|done]. by destruct s.
Qed.

(** Some character in [s[m : m + n]] is not a dot. *)
Lemma has_non_dot_slice (pre : string) c rest : ∀ m n,
  c ≠ "."%char → m ≤ String.length pre → String.length pre < m + n →
  has_non_dot (str_take n (str_drop m (pre +:+ String c rest))) = true.
Proof.
  induction pre as [|a pre IH]; intros m n Hc Hm Hn.
  - cbn in Hm. assert (m = 0) as -> by lia. rewrite str_app_nil.
    destruct n as [|n]; [cbn in Hn; lia|]. cbn.
    by destruct (Ascii.eqb_spec c ".").
  - rewrite str_app_cons. cbn [String.length] in Hm, Hn. destruct m as [|m].
    + destruct n as [|n]; [lia|]. cbn [str_drop str_take has_non_dot].
      apply orb_true_iff. right.
      specialize (IH 0 n Hc). cbn [str_drop] in IH. apply IH; lia.
    + cbn [str_drop]. apply IH; [done|lia..].
Qed.

(** A name whose last component holds a character other than a dot
    before the final extension [ext] is split at that extension. *)
Lemma splitext_stem (pre : string) c (post ext : string) :
  c ≠ "."%char → c ≠ "/"%char → contains "/" post = false →
  rfind "." ext = 0%Z → rfind "/" ext = (-1)%Z →
  (splitext (pre +:+ String c post +:+ ext)).2 = ext.
Proof.
  intros Hdot Hsep Hpost Hext1 Hext2.
  set (stem := pre +:+ String c post).
  assert (Hfile : pre +:+ String c post +:+ ext = stem +:+ ext)
    by (unfold stem; by rewrite str_app_assoc).
  assert (Hsepix : (rfind "/" (stem +:+ ext) < Z.of_nat (String.length pre))%Z).
  { rewrite rfind_app_absent by done. unfold stem.
    rewrite rfind_app_absent; [apply rfind_range|].
    cbn [rfind]. rewrite (rfind_absent _ _ Hpost). cbn.
    by destruct (Ascii.eqb_spec c "/"). }
  assert (Hdotix : rfind "." (stem +:+ ext) = Z.of_nat (String.length stem)).
  { rewrite rfind_app_present; lia. }
  assert (Hlen : String.length stem = String.length pre + S (String.length post)).
  { unfold stem. by rewrite str_length_app. }
  pose proof (rfind_range "/" (stem +:+ ext)) as Hrange.
  assert (Hnd : has_non_dot
            (str_take (String.length stem - Z.to_nat (rfind "/" (stem +:+ ext) + 1))
               (str_drop (Z.to_nat (rfind "/" (stem +:+ ext) + 1)) (stem +:+ ext)))
          = true).
  { rewrite <- Hfile at 3. change (String c post +:+ ext) with (String c (post +:+ ext)).
    apply has_non_dot_slice; [done|lia..]. }
  unfold splitext. rewrite Hfile, Hdotix.
  destruct (Z.ltb_spec (rfind "/" (stem +:+ ext)) (Z.of_nat (String.length stem)));
    [|lia].
  rewrite Nat2Z.id, Hnd. cbn. apply str_drop_app.
Qed.

Lemma det_file_type_csv in_file :
  (splitext in_file).2 = ".csv" → _det_file_type in_file = Ok (",", 0).
Proof.
  unfold _det_file_type. destruct (splitext in_file) as [fn sf]. cbn.
  by intros ->.
Qed.

Lemma det_file_type_txt in_file :
  (splitext in_file).2 = ".txt" → _det_file_type in_file = Ok (TAB, 3).
Proof.
  unfold _det_file_type. destruct (splitext in_file) as [fn sf]. cbn.
  by intros ->.
Qed.

(** C8, amended: the dispatch is on the extension that
    [os.path.splitext] finds.  A name ending in [.csv] (in [.txt]) whose
    last path component has a character other than a dot before that
    extension yields [","] with 0 lines to remove (a tab with 3 lines);
    every name whose extension is neither fails with a [ValueError],
    and so does the empty name. *)
Theorem det_file_type_dispatch (in_file : string) :
  (∀ pre c post,
     in_file = pre +:+ String c post +:+ ".csv" →
     c ≠ "."%char → c ≠ "/"%char → contains "/" post = false →
     _det_file_type in_file = Ok (",", 0)) ∧
  (∀ pre c post,
     in_file = pre +:+ String c post +:+ ".txt" →
     c ≠ "."%char → c ≠ "/"%char → contains "/" post = false →
     _det_file_type in_file = Ok (TAB, 3)) ∧
  ((splitext in_file).2 ≠ ".csv" → (splitext in_file).2 ≠ ".txt" →
     ∃ msg, _det_file_type in_file = Raise (ValueError msg)) ∧
  (in_file = "" →
     _det_file_type in_file = Raise (ValueError "Input file name is empty.")).
Proof.
  split; [|split; [|split]].
  - intros pre c post -> ???. apply det_file_type_csv. by apply splitext_stem.
  - intros pre c post -> ???. apply det_file_type_txt. by apply splitext_stem.
  - unfold _det_file_type. destruct (splitext in_file) as [fn sf]. cbn.
    intros ??. rewrite !decide_False by done.
    destruct (decide (String.length in_file = 0)); eauto.
  - by intros ->.
Qed.

Lemma det_file_type_dispatch_witness :
  _det_file_type "data/run1.csv" = Ok (",", 0) ∧
  _det_file_type "sub.01/run1.txt" = Ok (TAB, 3) ∧
  (∃ msg, _det_file_type "run1.edat2" = Raise (ValueError msg)) ∧
  _det_file_type "" = Raise (ValueError "Input file name is empty.").
Proof.
  split; [|split; [|split]].
  - apply (proj1 (det_file_type_dispatch "data/run1.csv") "data/run" "1"%char "");
      [reflexivity | discriminate | discriminate | reflexivity].
  - apply (proj1 (proj2 (det_file_type_dispatch "sub.01/run1.txt"))
             "sub.01/" "r"%char "un1");
      [reflexivity | discriminate | discriminate | reflexivity].
  - apply (proj1 (proj2 (proj2 (det_file_type_dispatch "run1.edat2"))));
      vm_compute; discriminate.
  - apply (proj2 (proj2 (proj2 (det_file_type_dispatch "")))). reflexivity.
Defined.

(** C8 as stated fails: a name that ends in [.csv] (or [.txt]) and has
    only dots before it in its last component has no extension. *)
Lemma det_file_type_hidden_csv :
  _det_file_type ".csv"
    = Raise (ValueError "Input file name is not .csv or .txt.") ∧
  _det_file_type ".csv" ≠ Ok (",", 0) ∧
  _det_file_type "logs/.txt"
    = Raise (ValueError "Input file name is not .csv or .txt.") ∧
  _det_file_type "logs/.txt" ≠ Ok (TAB, 3).
Proof. repeat split; (reflexivity || discriminate). Qed.

(** ** Marker positions *)

Lemma indices_where_app {A} (P : A → bool) (l1 l2 : list A) k :
  indices_where P k (l1 ++ l2)
  = indices_where P k l1 ++ indices_where P (k + length l1) l2.
Proof.
  revert k. induction l1 as [|x l1 IH]; intros k; cbn.
  - by rewrite Nat.add_0_r.
  - rewrite IH. replace (S k + length l1) with (k + S (length l1)) by lia.
    by destruct (P x).
Qed.

Lemma indices_where_none {A} (P : A → bool) (l : list A) k :
  Forall (λ x, P x = false) l → indices_where P k l = [].
Proof.
  intros H. revert k. induction H as [|x l Hx _ IH]; intros k; [done|].
  cbn. by rewrite Hx.
Qed.

Lemma plain_lines_no_start (rows : list string) :
  Forall plain_line rows →
  Forall (λ row, is_row LOGFRAME_START row = false) (_strip <$> rows).
Proof.
  intros H. apply Forall_fmap. eapply Forall_impl; [exact H|].
  intros row [Hs _]. cbn. unfold is_row. by apply bool_decide_eq_false.
Qed.

Lemma plain_lines_no_end (rows : list string) :
  Forall plain_line rows →
  Forall (λ row, is_row LOGFRAME_END row = false) (_strip <$> rows).
Proof.
  intros H. apply Forall_fmap. eapply Forall_impl; [exact H|].
  intros row [_ He]. cbn. unfold is_row. by apply bool_decide_eq_false.
Qed.

(** C10: on a log none of whose sanitized lines is a frame marker,
    the marker validation reads the first element of an empty list:
    it raises [IndexError], and so do [text_to_csv] and (for a task
    that [replace_dict] knows, so that the log is read at all)
    [text_to_rcsv], before the format error or any block. *)
Theorem no_frames_index_error (list_set : list string → list string)
    (cfg : pickle) (text_data : list string) (edat_file task : string) :
  Forall plain_line text_data →
  let filtered_data := _strip <$> text_data in
  check_frames (indices_where (is_row LOGFRAME_START) 0 filtered_data)
               (indices_where (is_row LOGFRAME_END) 0 filtered_data)
    = Raise IndexError ∧
  text_to_csv list_set text_data = Raise IndexError ∧
  (is_Some (replace_dict cfg !! task) →
   text_to_rcsv list_set cfg text_data edat_file task = Raise IndexError).
Proof.
  intros Hplain filtered_data.
  assert (Hs : indices_where (is_row LOGFRAME_START) 0 filtered_data = [])
    by by apply indices_where_none, plain_lines_no_start.
  assert (He : indices_where (is_row LOGFRAME_END) 0 filtered_data = [])
    by by apply indices_where_none, plain_lines_no_end.
  assert (Hdense : dense_table list_set text_data = Raise IndexError).
  { unfold dense_table. fold filtered_data. by rewrite Hs, He. }
  split; [by rewrite Hs, He|]. split.
  - unfold text_to_csv. by rewrite Hdense.
  - intros [by_suffix Hcfg]. unfold text_to_rcsv. rewrite Hcfg. cbn.
    by rewrite Hdense.
Qed.

Lemma no_frames_index_error_witness :
  text_to_csv remove_dups ["*** Header Start ***"; "Subject: 1"; "*** Header End ***"]
    = Raise IndexError ∧
  text_to_rcsv remove_dups cfg_demo
      ["*** Header Start ***"; "Subject: 1"; "*** Header End ***"] "s1.edat2" "T"
    = Raise IndexError.
Proof.
  pose proof (no_frames_index_error remove_dups cfg_demo
    ["*** Header Start ***"; "Subject: 1"; "*** Header End ***"] "s1.edat2" "T")
    as H.
  destruct H as (_ & Hcsv & Hrcsv).
  - repeat constructor; discriminate.
  - split; [exact Hcsv|]. apply Hrcsv. vm_compute. eauto.
Defined.

Lemma remove_dups_enumerates_sets : enumerates_sets remove_dups.
Proof. intros l. split; [apply NoDup_remove_dups|]. intros x. apply elem_of_remove_dups. Qed.

Lemma enumerates_singleton list_set (h : string) :
  enumerates_sets list_set → list_set [h] = [h].
Proof.
  intros Hset. destruct (Hset [h]) as [Hnd Hin].
  destruct (list_set [h]) as [|x [|y l]].
  - specialize (proj2 (Hin h)). rewrite list_elem_of_singleton. intros H.
    by apply not_elem_of_nil in H.
  - assert (x = h) as ->; [|done]. apply list_elem_of_singleton, Hin. by left.
  - assert (x = h) as -> by (apply list_elem_of_singleton, Hin; by left).
    assert (y = h) as -> by (apply list_elem_of_singleton, Hin; right; by left).
    apply NoDup_cons in Hnd as [Hnd _]. exfalso. apply Hnd. by left.
Qed.

(** ** Field lines *)

Lemma prefix_app (sub t : string) : String.prefix sub (sub +:+ t) = true.
Proof.
  induction sub as [|a sub IH]; [by destruct t|]. rewrite str_app_cons. cbn.
  by destruct (ascii_dec a a).
Qed.

Lemma str_find_app (sub s t : string) : is_Some (str_find sub (s +:+ sub +:+ t)).
Proof.
  induction s as [|a s IH].
  - rewrite str_app_nil.
    assert (str_find sub (sub +:+ t) = Some 0) as ->; [|by eexists].
    pose proof (prefix_app sub t) as H.
    destruct (sub +:+ t); cbn in *; by rewrite H.
  - rewrite str_app_cons. cbn [str_find].
    destruct (String.prefix sub (String a (s +:+ sub +:+ t))); [by eexists|].
    destruct IH as [i ->]. by eexists.
Qed.

Lemma field_line_plain (line : string) :
  is_Some (str_find ": " line) →
  is_row LOGFRAME_START line = false ∧ is_row LOGFRAME_END line = false.
Proof.
  intros [i Hi]. unfold is_row.
  split; apply bool_decide_eq_false; intros ->; vm_compute in Hi; discriminate.
Qed.

Lemma setitem_Ok {A} (l : list A) i x :
  i < length l → setitem l i x = Ok (<[i := x]> l).
Proof. intros H. unfold setitem. by rewrite decide_True. Qed.

Lemma setitem2_Ok {A} (m : list (list A)) i j row x :
  m !! i = Some row → j < length row →
  setitem2 m i j x = Ok (<[i := <[j := x]> row]> m).
Proof.
  intros Hrow Hj. unfold setitem2. rewrite (getitem_Ok _ _ _ Hrow). cbn.
  rewrite setitem_Ok by done. cbn. apply setitem_Ok.
  by apply lookup_lt_Some in Hrow.
Qed.

(** ** The columns of [text_to_csv] *)

Lemma length_slice_assign_full (col : list string) v :
  length (slice_assign col 1 (length col) (replicate (length col - 1) v))
  = length col.
Proof.
  unfold slice_assign.
  rewrite !length_app, length_take, length_replicate, length_drop. lia.
Qed.

Lemma indices_where_bound {A} (P : A → bool) (l : list A) k i :
  i ∈ indices_where P k l → k ≤ i < k + length l.
Proof.
  revert k. induction l as [|x l IH]; intros k; cbn [indices_where length].
  - by intros ?%not_elem_of_nil.
  - destruct (P x).
    + intros [->|H%IH]%elem_of_cons; clear IH; lia.
    + intros H%IH. clear IH. lia.
Qed.

(** [fill_column_csv] never raises and keeps the number of cells. *)
Lemma trailing_fill_length (col : list string) r :
  r < length col →
  ∃ col', trailing_fill col r = Ok col' ∧ length col' = length col.
Proof.
  intros Hr. unfold trailing_fill.
  destruct (lookup_lt_is_Some_2 col r Hr) as [v Hv].
  rewrite (getitem_Ok _ _ _ Hv). cbn. eexists. split; [done|].
  by rewrite length_slice_assign_full.
Qed.

Lemma trailing_csv_bound (col : list string) r :
  trailing_csv col = Some r → r < length col.
Proof.
  unfold trailing_csv.
  destruct (indices_where not_null 0 col) as [|r0 [|r1 [|]]] eqn:Hrows; try done.
  case_decide; [|done]. intros [= <-].
  assert (Hr : r1 ∈ indices_where not_null 0 col)
    by (rewrite Hrows; right; by left).
  apply indices_where_bound in Hr. lia.
Qed.

Lemma trailing_rcsv_bound (col : list string) r :
  trailing_rcsv col = Some r → r < length col.
Proof.
  unfold trailing_rcsv.
  destruct (indices_where not_null 0 col) as [|r0 [|r1 [|]]] eqn:Hrows; try done.
  case_decide; [|done]. intros [= <-].
  assert (Hr : r1 ∈ indices_where not_null 0 col)
    by (rewrite Hrows; right; by left).
  apply indices_where_bound in Hr. lia.
Qed.

Lemma fill_column_csv_length (col : list string) :
  ∃ col', fill_column_csv col = Ok col' ∧ length col' = length col.
Proof.
  unfold fill_column_csv. destruct (trailing_csv col) as [r|] eqn:Hr.
  - by apply trailing_fill_length, trailing_csv_bound.
  - by eexists.
Qed.

(** C5, amended: for a raw log that holds exactly one frame whose
    block is one field line, [text_to_csv] writes an empty table, with
    neither a header row nor a data row: the cut drops the last two
    cells of the only column, which are its header cell and its value. *)
Theorem single_field_log_empty_table (list_set : list string → list string)
    (before after : list string) (start_line field_line end_line : string)
    (name value : string) :
  enumerates_sets list_set →
  Forall plain_line before → Forall plain_line after →
  _strip start_line = LOGFRAME_START →
  _strip end_line = LOGFRAME_END →
  _strip field_line = name +:+ ": " +:+ value →
  text_to_csv list_set
    (before ++ [start_line; field_line; end_line] ++ after) = Ok [].
Proof.
  intros Hset Hbefore Hafter Hstart Hend Hfield.
  pose proof (str_find_app ": " name value) as Hsome. rewrite <- Hfield in Hsome.
  destruct (field_line_plain _ Hsome) as [Hfs Hfe].
  destruct Hsome as [idx Hidx].
  set (a := length before).
  set (filtered_data := _strip <$> before ++ [start_line; field_line; end_line] ++ after).
  assert (Hfiltered : filtered_data
    = (_strip <$> before)
        ++ [LOGFRAME_START; _strip field_line; LOGFRAME_END] ++ (_strip <$> after)).
  { unfold filtered_data. rewrite !fmap_app. cbn. by rewrite Hstart, Hend. }
  assert (Hs : indices_where (is_row LOGFRAME_START) 0 filtered_data = [a]).
  { rewrite Hfiltered, indices_where_app.
    rewrite (indices_where_none _ _ _ (plain_lines_no_start _ Hbefore)).
    rewrite length_fmap. cbn. rewrite Hfs.
    by rewrite (indices_where_none _ _ _ (plain_lines_no_start _ Hafter)). }
  assert (He : indices_where (is_row LOGFRAME_END) 0 filtered_data = [a + 2]).
  { rewrite Hfiltered, indices_where_app.
    rewrite (indices_where_none _ _ _ (plain_lines_no_end _ Hbefore)).
    rewrite length_fmap. cbn. rewrite Hfe.
    rewrite (indices_where_none _ _ _ (plain_lines_no_end _ Hafter)).
    f_equal. lia. }
  assert (Hslice : slice filtered_data (a + 1) (a + 2) = [_strip field_line]).
  { unfold slice. rewrite Hfiltered.
    replace (a + 2 - (a + 1)) with 1 by lia.
    rewrite drop_app_ge; [|rewrite length_fmap; unfold a; lia].
    replace (a + 1 - length (_strip <$> before)) with 1
      by (rewrite length_fmap; unfold a; lia).
    done. }
  set (header := str_take idx (_strip field_line)).
  set (cell := str_drop (idx + 2) (_strip field_line)).
  assert (Hdense : dense_table list_set
            (before ++ [start_line; field_line; end_line] ++ after)
          = Ok [[header; cell]]).
  { unfold dense_table. fold filtered_data. rewrite Hs, He.
    unfold check_frames. cbn [length]. case_decide; [lia|].
    cbn. case_decide; [lia|]. cbn.
    unfold read_blocks. cbn. rewrite Hslice. cbn.
    unfold split_field, str_index. rewrite Hidx. cbn. fold header.
    rewrite (enumerates_singleton _ _ Hset).
    unfold null_matrix. cbn -[setitem2].
    rewrite (setitem2_Ok _ 0 0 [NULL; NULL]) by (done || cbn; lia). cbn.
    unfold fill_matrix. cbn -[setitem2]. unfold str_index. rewrite Hidx.
    cbn -[setitem2]. fold header. rewrite decide_True by done.
    rewrite setitem_Ok by (cbn; lia). cbn -[setitem].
    by rewrite setitem_Ok by (cbn; lia). }
  unfold text_to_csv. rewrite Hdense. cbn.
  destruct (fill_column_csv_length [header; cell]) as (col' & -> & Hlen).
  cbn. unfold drop_last_two. rewrite Hlen. done.
Qed.

Lemma single_field_log_empty_table_witness :
  text_to_csv remove_dups
    ["*** Header Start ***"; "*** Header End ***";
     "*** LogFrame Start ***"; "Subject: 12"; "*** LogFrame End ***"] = Ok [].
Proof.
  apply (single_field_log_empty_table remove_dups
           ["*** Header Start ***"; "*** Header End ***"] []
           "*** LogFrame Start ***" "Subject: 12" "*** LogFrame End ***"
           "Subject" "12").
  - exact remove_dups_enumerates_sets.
  - repeat constructor; discriminate.
  - constructor.
  - reflexivity.
  - reflexivity.
  - reflexivity.
Defined.

(** C5 as stated fails: the table of a one-trial, one-field log has no
    row at all. *)
Lemma single_trial_log_writes_no_rows :
  text_to_csv remove_dups
    ((λ line, line +:+ NL) <$>
     ["*** LogFrame Start ***"; "Subject: 12"; "*** LogFrame End ***"])
    = Ok [] ∧
  @Ok (list (list string)) [] ≠ Ok [["Subject"]; ["12"]].
Proof. split; [reflexivity | discriminate]. Qed.

(** ** The block segmenter on correctly nested frames *)

Lemma no_marker_no_start (rows : list string) k :
  Forall no_marker rows → indices_where (is_row LOGFRAME_START) k rows = [].
Proof.
  intros H. apply indices_where_none. eapply Forall_impl; [exact H|].
  intros row [Hs _]. cbn. by apply bool_decide_eq_false.
Qed.

Lemma no_marker_no_end (rows : list string) k :
  Forall no_marker rows → indices_where (is_row LOGFRAME_END) k rows = [].
Proof.
  intros H. apply indices_where_none. eapply Forall_impl; [exact H|].
  intros row [_ He]. cbn. by apply bool_decide_eq_false.
Qed.

Lemma field_lines_no_marker (block : list string) :
  Forall field_line block → Forall no_marker block.
Proof.
  intros H. eapply Forall_impl; [exact H|]. intros line Hline.
  destruct (field_line_plain _ Hline) as [Hs He].
  apply bool_decide_eq_false in Hs, He. by split.
Qed.

Lemma frames_log_starts (segs : list (list string * list string)) post : ∀ k,
  well_formed_frames segs post →
  indices_where (is_row LOGFRAME_START) k (frames_log segs post)
  = frame_starts k segs.
Proof.
  induction segs as [|[gap block] segs IH]; intros k [Hsegs Hpost].
  { by apply no_marker_no_start. }
  apply Forall_cons in Hsegs as [[Hgap Hblock] Hsegs]. cbn in Hgap, Hblock.
  cbn [frames_log frame_starts].
  rewrite indices_where_app, (no_marker_no_start _ _ Hgap).
  cbn [app indices_where].
  change (is_row LOGFRAME_START LOGFRAME_START) with true. cbn iota.
  rewrite indices_where_app.
  rewrite (no_marker_no_start _ _ (field_lines_no_marker _ Hblock)).
  cbn [app indices_where].
  change (is_row LOGFRAME_START LOGFRAME_END) with false. cbn iota.
  rewrite IH by done. do 2 f_equal. lia.
Qed.

Lemma frames_log_ends (segs : list (list string * list string)) post : ∀ k,
  well_formed_frames segs post →
  indices_where (is_row LOGFRAME_END) k (frames_log segs post)
  = frame_ends k segs.
Proof.
  induction segs as [|[gap block] segs IH]; intros k [Hsegs Hpost].
  { by apply no_marker_no_end. }
  apply Forall_cons in Hsegs as [[Hgap Hblock] Hsegs]. cbn in Hgap, Hblock.
  cbn [frames_log frame_ends].
  rewrite indices_where_app, (no_marker_no_end _ _ Hgap).
  cbn [app indices_where].
  change (is_row LOGFRAME_END LOGFRAME_START) with false. cbn iota.
  rewrite indices_where_app.
  rewrite (no_marker_no_end _ _ (field_lines_no_marker _ Hblock)).
  cbn [app indices_where].
  change (is_row LOGFRAME_END LOGFRAME_END) with true. cbn iota.
  rewrite IH by done. f_equal; [lia|]. f_equal. lia.
Qed.

Lemma length_frame_starts segs k : length (frame_starts k segs) = length segs.
Proof.
  revert k. induction segs as [|[gap block] segs IH]; intros k; [done|].
  cbn. by rewrite IH.
Qed.

Lemma length_frame_ends segs k : length (frame_ends k segs) = length segs.
Proof.
  revert k. induction segs as [|[gap block] segs IH]; intros k; [done|].
  cbn. by rewrite IH.
Qed.

(** A loop over [range(len(l1))] that reads [l1[i]] and [l2[i]] is a
    loop over the pairs of the two lists. *)
Lemma foldM_seq_getitem2 {A1 A2 B} (g : B → A1 → A2 → result B)
    (l1 : list A1) (l2 : list A2) (b : B) :
  length l1 = length l2 →
  foldM (λ b i, x ← getitem l1 i; y ← getitem l2 i; g b x y) b
        (seq 0 (length l1))
  = foldM (λ b xy, g b xy.1 xy.2) b (zip l1 l2).
Proof.
  assert (Hgen : ∀ (l1 : list A1) (l2 : list A2) (s1 : list A1) (s2 : list A2) b,
    length l1 = length l2 → length s1 = length s2 →
    foldM (λ b i, x ← getitem (s1 ++ l1) i; y ← getitem (s2 ++ l2) i; g b x y)
          b (seq (length s1) (length l1))
    = foldM (λ b xy, g b xy.1 xy.2) b (zip l1 l2)).
  { clear. induction l1 as [|x l1 IH]; intros [|y l2] s1 s2 b Hl Hs;
      try discriminate Hl; [done|].
    cbn [length seq foldM zip zip_with].
    rewrite (getitem_Ok _ _ x) by by apply list_lookup_middle.
    cbn. rewrite (getitem_Ok _ _ y) by by apply list_lookup_middle.
    cbn. destruct (g b x y) as [b'|e]; [|done]. cbn.
    specialize (IH l2 (s1 ++ [x]) (s2 ++ [y]) b').
    rewrite <- !app_assoc, !length_app in IH. cbn in IH.
    replace (length s1 + 1) with (S (length s1)) in IH by lia.
    apply IH; [by injection Hl | lia]. }
  intros Hl. by apply (Hgen l1 l2 [] [] b).
Qed.

Lemma mapM_Ok_Forall {A B} (f : A → result B) (g : A → B) (l : list A) :
  Forall (λ x, f x = Ok (g x)) l → mapM f l = Ok (g <$> l).
Proof.
  induction 1 as [|x l Hx _ IH]; [done|]. rewrite mapM_cons, Hx. cbn.
  by rewrite IH.
Qed.

Lemma split_field_name (line : string) :
  field_line line → fst <$> split_field line = Ok (field_name line).
Proof.
  intros [i Hi]. unfold split_field, str_index, field_name. by rewrite Hi.
Qed.

Lemma slice_middle {A} (seen block rest : list A) :
  slice (seen ++ block ++ rest) (length seen) (length seen + length block)
  = block.
Proof.
  unfold slice. rewrite drop_app_length.
  replace (length seen + length block - length seen) with (length block) by lia.
  by rewrite take_app_length.
Qed.

(** The block loop over the frames of a log: every block is the run of
    lines strictly between its two markers. *)
Lemma read_blocks_frames (segs : list (list string * list string)) post :
  ∀ (seen : list string) (data_by_rows : list (list string))
    (all_headers : list string),
  well_formed_frames segs post →
  foldM (λ b se,
           let one_row := slice (seen ++ frames_log segs post) (se.1 + 1) se.2 in
           hs ← mapM (λ line, fst <$> split_field line) one_row;
           Ok (b.1 ++ [one_row], b.2 ++ hs))
        (data_by_rows, all_headers)
        (zip (frame_starts (length seen) segs) (frame_ends (length seen) segs))
  = Ok (data_by_rows ++ (snd <$> segs),
        all_headers ++ (field_name <$> concat (snd <$> segs))).
Proof.
  induction segs as [|[gap block] segs IH];
    intros seen data_by_rows all_headers [Hsegs Hpost].
  { cbn. by rewrite !app_nil_r. }
  apply Forall_cons in Hsegs as [[Hgap Hblock] Hsegs]. cbn in Hgap, Hblock.
  cbn [frame_starts frame_ends zip zip_with foldM frames_log fst snd].
  assert (Hslice : slice (seen ++ gap ++ LOGFRAME_START :: block
                            ++ LOGFRAME_END :: frames_log segs post)
                     (length seen + length gap + 1)
                     (length seen + length gap + 1 + length block) = block).
  { pose proof (slice_middle (seen ++ gap ++ [LOGFRAME_START]) block
                  (LOGFRAME_END :: frames_log segs post)) as H.
    rewrite !length_app in H. cbn in H.
    rewrite <- !app_assoc in H. cbn in H.
    rewrite <- H at 3. f_equal; lia. }
  rewrite Hslice.
  rewrite (mapM_Ok_Forall _ field_name)
    by (eapply Forall_impl; [exact Hblock|]; by apply split_field_name).
  cbn.
  specialize (IH (seen ++ gap ++ LOGFRAME_START :: block ++ [LOGFRAME_END])
                 (data_by_rows ++ [block])
                 (all_headers ++ (field_name <$> block))).
  rewrite <- !app_assoc in IH. cbn in IH. rewrite <- !app_assoc in IH. cbn in IH.
  rewrite !length_app in IH. cbn in IH. rewrite !length_app in IH. cbn in IH.
  replace (length seen + (length gap + S (length block + 1)))
    with (length seen + length gap + length block + 2) in IH by lia.
  rewrite IH by done. by rewrite fmap_app.
Qed.
Lemma foldM_ext {A B} (f f' : B → A → result B) (l : list A) (b : B) :
  (∀ b x, f b x = f' b x) → foldM f b l = foldM f' b l.
Proof.
  intros Hext. revert b. induction l as [|x l IH]; intros b; [done|]. cbn.
  rewrite Hext. destruct (f' b x) as [b'|e]; [|done]. cbn. apply IH.
Qed.

(** The marker validation raises the format error when the counts of
    the two markers differ. *)
Lemma check_frames_count_mismatch (start_index end_index : list nat) :
  length start_index ≠ length end_index →
  check_frames start_index end_index = Raise (ValueError MISMATCH).
Proof. intros H. unfold check_frames. by rewrite decide_True. Qed.

(** It raises the format error when the first start marker does not
    come strictly before the first end marker. *)
Lemma check_frames_first_misordered (start_index end_index : list nat) s0 e0 :
  start_index !! 0 = Some s0 → end_index !! 0 = Some e0 → e0 ≤ s0 →
  check_frames start_index end_index = Raise (ValueError MISMATCH).
Proof.
  intros Hs He Hle. unfold check_frames. case_decide; [done|].
  rewrite (getitem_Ok _ _ _ Hs), (getitem_Ok _ _ _ He). cbn.
  by rewrite decide_True.
Qed.

(** Both conversions fail with what the validation raises. *)
Lemma check_frames_raise_propagates (list_set : list string → list string)
    (cfg : pickle) (text_data : list string) (edat_file task : string) e :
  check_frames
    (indices_where (is_row LOGFRAME_START) 0 (_strip <$> text_data))
    (indices_where (is_row LOGFRAME_END) 0 (_strip <$> text_data)) = Raise e →
  text_to_csv list_set text_data = Raise e ∧
  (is_Some (replace_dict cfg !! task) →
   text_to_rcsv list_set cfg text_data edat_file task = Raise e).
Proof.
  intros Hcheck.
  assert (Hdense : dense_table list_set text_data = Raise e)
    by (unfold dense_table; by rewrite Hcheck).
  split.
  - unfold text_to_csv. by rewrite Hdense.
  - intros [by_suffix Hcfg]. unfold text_to_rcsv. rewrite Hcfg. cbn.
    by rewrite Hdense.
Qed.

(** On a log of at least one correctly nested frame whose block lines
    are field lines, the validation passes and the block loop yields
    one block per start marker: the lines strictly between the start
    marker and the end marker of its frame. *)
Lemma segmenter_on_frames (filtered_data : list string)
    (segs : list (list string * list string)) (post : list string) :
  segs ≠ [] → well_formed_frames segs post →
  filtered_data = frames_log segs post →
  let start_index := indices_where (is_row LOGFRAME_START) 0 filtered_data in
  let end_index := indices_where (is_row LOGFRAME_END) 0 filtered_data in
  length start_index = length segs ∧
  length end_index = length segs ∧
  check_frames start_index end_index = Ok () ∧
  read_blocks filtered_data start_index end_index
  = Ok (snd <$> segs, field_name <$> concat (snd <$> segs)).
Proof.
  intros Hne Hwf -> start_index end_index.
  unfold start_index, end_index.
  rewrite frames_log_starts, frames_log_ends by done.
  split; [apply length_frame_starts|]. split; [apply length_frame_ends|]. split.
  - destruct segs as [|[gap block] segs]; [done|].
    unfold check_frames. cbn [frame_starts frame_ends length].
    rewrite length_frame_starts, length_frame_ends.
    rewrite decide_False by (intros H; by apply H). cbn.
    rewrite decide_False by lia. done.
  - unfold read_blocks.
    rewrite (foldM_ext _
      (λ b i, s ← getitem (frame_starts 0 segs) i;
              e ← getitem (frame_ends 0 segs) i;
              let one_row := slice (frames_log segs post) (s + 1) e in
              hs ← mapM (λ line, fst <$> split_field line) one_row;
              Ok (b.1 ++ [one_row], b.2 ++ hs)))
      by by intros [??] ?.
    rewrite (foldM_seq_getitem2
      (λ b s e, let one_row := slice (frames_log segs post) (s + 1) e in
                hs ← mapM (λ line, fst <$> split_field line) one_row;
                Ok (b.1 ++ [one_row], b.2 ++ hs)))
      by by rewrite length_frame_starts, length_frame_ends.
    apply (read_blocks_frames segs post [] [] [] Hwf).
Qed.

(** C6 fails on a log without frames: the counts are equal and no
    marker is misplaced, yet neither the format error is raised nor
    the (empty) sequence of blocks produced. *)
Theorem frameless_log_index_error (list_set : list string → list string) :
  check_frames
    (indices_where (is_row LOGFRAME_START) 0 (_strip <$> log_no_frame))
    (indices_where (is_row LOGFRAME_END) 0 (_strip <$> log_no_frame))
    = Raise IndexError ∧
  text_to_csv list_set log_no_frame = Raise IndexError ∧
  text_to_rcsv list_set cfg_demo log_no_frame "s1.edat2" "T" = Raise IndexError.
Proof. repeat split; reflexivity. Qed.
(** ** Policy B: the block fill *)

Lemma block_fill_step_pair (rows_w_vals : list nat) (col : list string)
    null_row prev cur :
  rows_w_vals !! (null_row - 1) = Some prev →
  rows_w_vals !! null_row = Some cur →
  block_fill_step rows_w_vals col null_row
  = v ← getitem col cur;
    Ok (slice_assign col (prev + 1) cur
          (chars (str_repeat v (cur - (prev + 1))))).
Proof.
  intros Hprev Hcur. unfold block_fill_step.
  by rewrite (getitem_Ok _ _ _ Hprev), (getitem_Ok _ _ _ Hcur).
Qed.

Lemma block_fill_pairs_from (rest : list nat) : ∀ (seen : list nat) prev col,
  foldM (block_fill_step (seen ++ prev :: rest)) col
        (seq (S (length seen)) (length rest))
  = fill_pairs prev rest col.
Proof.
  induction rest as [|cur rest IH]; intros seen prev col; [done|].
  cbn [length seq foldM fill_pairs].
  rewrite (block_fill_step_pair _ _ _ prev cur).
  - destruct (getitem col cur) as [v|e]; [|done]. cbn.
    specialize (IH (seen ++ [prev]) cur).
    rewrite <- app_assoc, length_app in IH. cbn in IH.
    replace (length seen + 1) with (S (length seen)) in IH by lia.
    apply IH.
  - replace (S (length seen) - 1) with (length seen) by lia.
    by apply list_lookup_middle.
  - rewrite (cons_middle prev seen), app_assoc.
    apply list_lookup_middle. rewrite length_app. cbn. lia.
Qed.

Lemma block_fill_pairs (r0 : nat) (rest : list nat) (col : list string) :
  block_fill (r0 :: rest) col = fill_pairs r0 rest col.
Proof.
  unfold block_fill. cbn [length]. rewrite Nat.sub_succ, Nat.sub_0_r.
  apply (block_fill_pairs_from rest [] r0 col).
Qed.

(** A one-character string repeated and then iterated is that many
    copies of it; with any other length the counts differ. *)
Lemma chars_repeat_one (v : string) n :
  String.length v = 1 → chars (str_repeat v n) = replicate n v.
Proof.
  destruct v as [|a [|b v]]; try discriminate. intros _.
  induction n as [|n IH]; [done|]. cbn [str_repeat replicate].
  rewrite str_app_cons, str_app_nil. cbn. by rewrite IH.
Qed.

Section slice_assign.
Context {A : Type} (l : list A) (a b : nat) (x : A).
Hypothesis Hab : a ≤ b.
Hypothesis Hb : b ≤ length l.

Lemma length_slice_assign_replicate :
  length (slice_assign l a b (replicate (b - a) x)) = length l.
Proof.
  unfold slice_assign.
  rewrite !length_app, length_take, length_replicate, length_drop. lia.
Qed.

Lemma lookup_slice_assign_before i :
  i < a → slice_assign l a b (replicate (b - a) x) !! i = l !! i.
Proof.
  intros Hi. unfold slice_assign.
  rewrite lookup_app_l by (rewrite length_take; lia).
  by apply lookup_take_lt.
Qed.

Lemma lookup_slice_assign_inside i :
  a ≤ i < b → slice_assign l a b (replicate (b - a) x) !! i = Some x.
Proof.
  intros Hi. unfold slice_assign.
  rewrite lookup_app_r by (rewrite length_take; lia).
  rewrite length_take, lookup_app_l by (rewrite length_replicate; lia).
  apply lookup_replicate_2. lia.
Qed.

Lemma lookup_slice_assign_after i :
  b ≤ i → slice_assign l a b (replicate (b - a) x) !! i = l !! i.
Proof.
  intros Hi. unfold slice_assign.
  rewrite lookup_app_r by (rewrite length_take; lia).
  rewrite lookup_app_r by (rewrite length_take, length_replicate; lia).
  rewrite lookup_drop, length_take, length_replicate. f_equal. lia.
Qed.

End slice_assign.

(** The loop over the pairs, for positions that increase and whose
    cells, the first apart, hold one character: the cells strictly
    between two neighbouring positions take the value of the later
    one, every other cell is kept, and so is the length. *)
Lemma fill_pairs_spec (rest : list nat) : ∀ prev (col : list string),
  StronglySorted lt (prev :: rest) →
  (∀ q, q ∈ rest → ∃ v, col !! q = Some v ∧ String.length v = 1) →
  ∃ r, fill_pairs prev rest col = Ok r ∧
       length r = length col ∧
       (∀ i, i ≤ prev → r !! i = col !! i) ∧
       (∀ i, (∀ q, q ∈ prev :: rest → q < i) → r !! i = col !! i) ∧
       (∀ q, q ∈ rest → r !! q = col !! q) ∧
       (∀ q i, q ∈ rest → prev < i < q →
               (∀ p, p ∈ rest → p < i ∨ q ≤ p) → r !! i = col !! q).
Proof.
  induction rest as [|cur rest IH]; intros prev col Hsorted Hcells.
  { exists col. do 4 (split; [done|]). split.
    - intros q H. by apply not_elem_of_nil in H.
    - intros q i H. by apply not_elem_of_nil in H. }
  apply StronglySorted_inv in Hsorted as [Hsorted Hprev].
  apply Forall_cons in Hprev as [Hcur Hprev].
  pose proof (StronglySorted_inv Hsorted) as [_ Hlater].
  destruct (Hcells cur) as (v & Hv & Hone); [by left|].
  pose proof (lookup_lt_Some _ _ _ Hv) as Hlt.
  cbn [fill_pairs]. rewrite (getitem_Ok _ _ _ Hv). cbn.
  rewrite chars_repeat_one by done.
  set (col1 := slice_assign col (prev + 1) cur (replicate (cur - (prev + 1)) v)).
  assert (Hlen1 : length col1 = length col)
    by (apply length_slice_assign_replicate; lia).
  assert (Hbefore : ∀ i, i ≤ prev → col1 !! i = col !! i)
    by (intros i Hi; apply lookup_slice_assign_before; lia).
  assert (Hinside : ∀ i, prev < i < cur → col1 !! i = Some v)
    by (intros i Hi; apply lookup_slice_assign_inside; lia).
  assert (Hafter : ∀ i, cur ≤ i → col1 !! i = col !! i)
    by (intros i Hi; apply lookup_slice_assign_after; lia).
  destruct (IH cur col1 Hsorted) as (r & Hr & Hlen & H1 & H2 & H3 & H4).
  { intros q Hq. rewrite Hafter.
    - apply Hcells. by right.
    - rewrite Forall_forall in Hlater. specialize (Hlater q Hq). lia. }
  exists r. split; [done|]. split; [lia|]. split; [|split; [|split]].
  - intros i Hi. rewrite H1 by lia. apply Hbefore. lia.
  - intros i Hi. rewrite H2.
    + apply Hafter. assert (cur < i); [|lia]. apply Hi. right. by left.
    + intros q Hq. apply Hi. by right.
  - intros q [->|Hq]%elem_of_cons.
    + rewrite H1 by lia. by apply Hafter.
    + rewrite H3 by done. apply Hafter.
      rewrite Forall_forall in Hlater. specialize (Hlater q Hq). lia.
  - intros q i [->|Hq]%elem_of_cons Hi Hgap.
    + rewrite H1 by lia. rewrite Hinside by lia. done.
    + assert (cur < q) by (rewrite Forall_forall in Hlater; by apply Hlater).
      assert (cur < i).
      { destruct (Hgap cur); [by left|done|lia]. }
      rewrite (H4 q i); [|done|lia|].
      * apply Hafter. lia.
      * intros p Hp. apply Hgap. by right.
Qed.

(** ** The positions that a comprehension over [enumerate] keeps *)

Lemma elem_of_indices_where {A} (P : A → bool) (l : list A) k i :
  i ∈ indices_where P k l ↔ k ≤ i ∧ ∃ x, l !! (i - k) = Some x ∧ P x = true.
Proof.
  revert k. induction l as [|y l IH]; intros k; cbn [indices_where].
  - split; [by intros ?%not_elem_of_nil|]. by intros (_ & x & ? & _).
  - assert (Hstep : i ∈ indices_where P (S k) l ↔
                    S k ≤ i ∧ ∃ x, (y :: l) !! (i - k) = Some x ∧ P x = true).
    { rewrite IH. split; intros (Hk & x & Hx & HP); (split; [done|]); exists x.
      - by replace (i - k) with (S (i - S k)) by lia.
      - by replace (i - k) with (S (i - S k)) in Hx by lia. }
    clear IH. destruct (P y) eqn:Hy.
    + rewrite elem_of_cons, Hstep. split.
      * intros [->|(Hk & x & Hx & HP)].
        -- split; [lia|]. exists y. by rewrite Nat.sub_diag.
        -- split; [lia|]. by exists x.
      * intros (Hk & x & Hx & HP).
        destruct (decide (i = k)) as [->|]; [by left|]. right.
        split; [lia|]. by exists x.
    + rewrite Hstep. split.
      * intros (Hk & x & Hx & HP). split; [lia|]. by exists x.
      * intros (Hk & x & Hx & HP). split; [|by exists x].
        destruct (decide (i = k)) as [->|]; [|lia].
        rewrite Nat.sub_diag in Hx. cbn in Hx. congruence.
Qed.

Lemma indices_where_sorted {A} (P : A → bool) (l : list A) k :
  StronglySorted lt (indices_where P k l).
Proof.
  revert k. induction l as [|y l IH]; intros k; cbn [indices_where];
    [constructor|].
  destruct (P y); [|apply IH]. constructor; [apply IH|].
  apply Forall_forall. intros i Hi%elem_of_indices_where. lia.
Qed.

(** The non-null positions of a column. *)
Lemma elem_of_rows_w_vals (col : list string) i :
  i ∈ indices_where not_null 0 col ↔ ∃ x, col !! i = Some x ∧ x ≠ NULL.
Proof.
  rewrite elem_of_indices_where, Nat.sub_0_r. unfold not_null.
  split.
  - intros (_ & x & Hx & HP%bool_decide_eq_true). by exists x.
  - intros (x & Hx & HP). split; [lia|]. exists x. split; [done|].
    by apply bool_decide_eq_true.
Qed.

Lemma mapM_Ok_fmap {A B} (f : A → result B) (g : A → B) (l : list A) :
  (∀ x, f x = Ok (g x)) → mapM f l = Ok (g <$> l).
Proof.
  intros Hf. induction l as [|x l IH]; [done|]. cbn. rewrite Hf. cbn.
  by rewrite IH.
Qed.

Lemma existsb_id_fmap {A} (g : A → bool) (l : list A) x :
  x ∈ l → g x = true → existsb id (g <$> l) = true.
Proof.
  intros Hx Hg. induction l as [|y l IH]; [by apply not_elem_of_nil in Hx|].
  cbn. apply orb_true_iff.
  apply elem_of_cons in Hx as [<-|Hx]; [by left|]. right. by apply IH.
Qed.

(** C1, amended: in a column whose header holds a fill-block fragment,
    that does not meet the trailing-value test, and whose non-null
    cells below the header are one character long, the block fill
    keeps the length and every non-null cell, and gives every cell
    strictly between two consecutive non-null positions (the header
    cell counts as one) the value at the later position; the null
    cells before the first and after the last non-null position stay
    as they are. *)
Theorem block_fill_between (fill_block col : list string) (frag h : string) :
  frag ∈ fill_block → col !! 0 = Some h → contains frag h = true →
  trailing_rcsv col = None →
  (∀ i v, 0 < i → col !! i = Some v → v ≠ NULL → String.length v = 1) →
  ∃ col',
    fill_column fill_block col = Ok col' ∧
    length col' = length col ∧
    (∀ i v, col !! i = Some v → v ≠ NULL → col' !! i = Some v) ∧
    (∀ p q i u v,
       p < i < q →
       col !! p = Some u → u ≠ NULL → col !! q = Some v → v ≠ NULL →
       (∀ j, p < j < q → col !! j = Some NULL) →
       col' !! i = Some v) ∧
    (∀ i, (∀ j x, j ≤ i → col !! j = Some x → x = NULL) →
          col' !! i = col !! i) ∧
    (∀ i, (∀ j x, i ≤ j → col !! j = Some x → x = NULL) →
          col' !! i = col !! i).
Proof.
  intros Hfrag Hh Hcontains Htrailing Hone.
  unfold fill_column. rewrite Htrailing.
  rewrite (mapM_Ok_fmap _ (λ header, contains header h))
    by (intros header; by rewrite (getitem_Ok _ _ _ Hh)).
  cbn. rewrite (existsb_id_fmap _ _ frag) by done.
  pose proof (elem_of_rows_w_vals col) as Hrows.
  pose proof (indices_where_sorted not_null col 0) as Hsorted.
  destruct (indices_where not_null 0 col) as [|r0 rest].
  { exists col. split; [done|]. split; [done|]. split; [done|].
    split; [|done].
    intros p q i u v _ Hp Hu. exfalso.
    eapply not_elem_of_nil, Hrows. eauto. }
  rewrite block_fill_pairs.
  pose proof (StronglySorted_inv Hsorted) as [_ Hfirst].
  rewrite Forall_forall in Hfirst.
  destruct (fill_pairs_spec rest r0 col Hsorted)
    as (r & -> & Hlen & H1 & H2 & H3 & H4).
  { intros q Hq. destruct (proj1 (Hrows q)) as (v & Hv & Hnn); [by right|].
    exists v. split; [done|]. apply (Hone q); [|done..].
    specialize (Hfirst q Hq). lia. }
  exists r. split; [done|]. split; [done|]. split; [|split; [|split]].
  - intros i v Hv Hnn. rewrite <- Hv.
    assert (Hi : i ∈ r0 :: rest) by (apply Hrows; eauto).
    apply elem_of_cons in Hi as [->|Hi]; [by apply H1 | by apply H3].
  - intros p q i u v Hi Hp Hu Hq Hv Hgap. rewrite <- Hq.
    assert (Hp' : p ∈ r0 :: rest) by (apply Hrows; eauto).
    assert (Hq' : q ∈ r0 :: rest) by (apply Hrows; eauto).
    assert (r0 ≤ p).
    { apply elem_of_cons in Hp' as [->|Hp']; [done|].
      specialize (Hfirst p Hp'). lia. }
    apply elem_of_cons in Hq' as [->|Hq']; [lia|].
    apply H4; [done|lia|]. intros p' Hp'r.
    destruct (decide (p' < i)); [by left|]. right.
    destruct (decide (q ≤ p')); [done|]. exfalso.
    destruct (proj1 (Hrows p')) as (x & Hx & Hxn); [by right|].
    rewrite Hgap in Hx by lia. by injection Hx as <-.
  - intros i Hnull. apply H1.
    destruct (proj1 (Hrows r0)) as (x & Hx & Hxn); [by left|].
    destruct (decide (i ≤ r0)); [done|]. exfalso. apply Hxn.
    apply (Hnull r0); [lia|done].
  - intros i Hnull. apply H2. intros q Hq.
    destruct (proj1 (Hrows q)) as (x & Hx & Hxn); [done|].
    destruct (decide (q < i)); [done|]. exfalso. apply Hxn.
    apply (Hnull q); [lia|done].
Qed.

Lemma block_fill_between_witness :
  ∃ col',
    fill_column ["NAM"] ["NAME"; "NULL"; "A"; "NULL"; "NULL"; "B"] = Ok col' ∧
    col' !! 1 = Some "A" ∧ col' !! 3 = Some "B" ∧ col' !! 4 = Some "B".
Proof.
  destruct (block_fill_between ["NAM"]
              ["NAME"; "NULL"; "A"; "NULL"; "NULL"; "B"] "NAM" "NAME")
    as (col' & Hfill & _ & _ & Hbetween & _).
  - by left.
  - reflexivity.
  - reflexivity.
  - reflexivity.
  - intros [|[|[|[|[|[|i]]]]]] v Hi Hv Hn; cbn in Hv; try lia;
      try discriminate Hv; injection Hv as <-; done.
  - exists col'. split; [exact Hfill|]. split; [|split].
    + apply (Hbetween 0 2 1 "NAME" "A"); [lia|done..|].
      intros [|[|j]] Hj; try lia. done.
    + apply (Hbetween 2 5 3 "A" "B"); [lia|done..|].
      intros [|[|[|[|[|j]]]]] Hj; try lia; done.
    + apply (Hbetween 2 5 4 "A" "B"); [lia|done..|].
      intros [|[|[|[|[|j]]]]] Hj; try lia; done.
Defined.

(** C1 as stated fails on its own example: the header is a non-null
    position, so the row before ["A"] is filled with ["A"]. *)
Lemma block_fill_fills_rows_before_first_value :
  fill_column ["NAM"] ["NAME"; "NULL"; "A"; "NULL"; "NULL"; "B"]
    = Ok ["NAME"; "A"; "A"; "B"; "B"; "B"] ∧
  ["NAME"; "A"; "A"; "B"; "B"; "B"] !! 1 ≠ Some NULL.
Proof. split; [reflexivity | discriminate]. Qed.
(** ** The row count of the columns, stage by stage *)

Lemma foldM_invariant {A B} (P : B → Prop) (f : B → A → result B)
    (l : list A) (b r : B) :
  (∀ b x b', P b → f b x = Ok b' → P b') →
  P b → foldM f b l = Ok r → P r.
Proof.
  intros Hstep. revert b. induction l as [|x l IH]; intros b Hb; cbn.
  - by intros [= <-].
  - destruct (f b x) as [b'|e] eqn:Hf; [|done]. cbn. eauto.
Qed.

Lemma setitem2_same_length (m m' : list (list string)) i j x n :
  same_length n m → setitem2 m i j x = Ok m' → same_length n m'.
Proof.
  intros Hm. unfold setitem2, getitem.
  destruct (m !! i) as [row|] eqn:Hrow; [|done]. cbn.
  destruct (setitem row j x) as [row'|] eqn:Hset; [|done]. cbn.
  unfold setitem in *. destruct (decide (j < length row)); [|done].
  injection Hset as <-.
  destruct (decide (i < length m)); [|done]. intros [= <-].
  apply Forall_insert; [done|]. rewrite length_insert.
  rewrite Forall_forall in Hm. apply Hm. by eapply list_elem_of_lookup_2.
Qed.

Lemma null_matrix_same_length n_rows unique_headers data_matrix :
  null_matrix n_rows unique_headers = Ok data_matrix →
  same_length (n_rows + 1) data_matrix.
Proof.
  unfold null_matrix. apply foldM_invariant.
  - intros m i m' Hm. destruct (getitem unique_headers i); [|done]. cbn.
    by apply setitem2_same_length.
  - apply Forall_replicate. apply length_replicate.
Qed.

Lemma fill_matrix_same_length n_rows unique_headers data_by_rows m m' n :
  same_length n m →
  fill_matrix n_rows unique_headers data_by_rows m = Ok m' →
  same_length n m'.
Proof.
  intros Hm. unfold fill_matrix. apply foldM_invariant; [|done].
  clear. intros m i_row m' Hm.
  destruct (getitem data_by_rows i_row) as [row|]; [|done]. cbn.
  apply foldM_invariant; [|done].
  clear. intros m j_col m' Hm.
  destruct (getitem row j_col) as [line|]; [|done]. cbn.
  destruct (str_index ": " line) as [idx|]; [|done]. cbn.
  apply foldM_invariant; [|done].
  clear. intros m k_header m' Hm.
  destruct (getitem unique_headers k_header) as [h|]; [|done]. cbn.
  case_decide; [by apply setitem2_same_length|]. by intros [= <-].
Qed.

(** The dense build: every column holds the header cell and one cell
    per start marker. *)
Lemma dense_table_same_length (list_set : list string → list string)
    (text_data : list string) (data_matrix : list (list string)) :
  dense_table list_set text_data = Ok data_matrix →
  same_length
    (length (indices_where (is_row LOGFRAME_START) 0 (_strip <$> text_data)) + 1)
    data_matrix.
Proof.
  unfold dense_table.
  destruct (check_frames _ _); [|done]. cbn.
  destruct (read_blocks _ _ _) as [[data_by_rows all_headers]|]; [|done]. cbn.
  destruct (null_matrix _ _) as [m|] eqn:Hnull; [|done]. cbn.
  apply fill_matrix_same_length. by eapply null_matrix_same_length.
Qed.

(** The cut keeps the columns equally long. *)
Lemma drop_last_two_length (col : list string) :
  length (drop_last_two col) = length col - 2.
Proof. unfold drop_last_two. rewrite length_take. lia. Qed.

(** The columns of [text_to_csv] stay equally long through the
    trailing fill and the cut. *)
Lemma csv_columns_same_length (data_matrix filled : list (list string)) n :
  same_length n data_matrix →
  mapM (λ col, drop_last_two <$> fill_column_csv col) data_matrix = Ok filled →
  same_length (n - 2) filled.
Proof.
  intros Hm. revert filled. induction Hm as [|col m Hcol _ IH]; intros filled.
  - by intros [= <-].
  - rewrite mapM_cons.
    destruct (fill_column_csv_length col) as (col' & -> & Hlen). cbn.
    destruct (mapM _ m) as [m'|]; [|done]. cbn. intros [= <-].
    constructor; [|by apply IH]. rewrite drop_last_two_length. lia.
Qed.

(** In [text_to_rcsv] the trailing fill keeps the length of a column,
    and so does a column that no fill-block fragment selects. *)
Lemma fill_column_unselected_length (fill_block col col' : list string) :
  (is_Some (trailing_rcsv col) ∨
   ∀ frag h, frag ∈ fill_block → col !! 0 = Some h → contains frag h = false) →
  fill_column fill_block col = Ok col' → length col' = length col.
Proof.
  unfold fill_column. destruct (trailing_rcsv col) as [r|] eqn:Hr.
  - intros _ Hfill.
    destruct (trailing_fill_length col r) as (c & Hc & Hlen);
      [by apply trailing_rcsv_bound|].
    rewrite Hc in Hfill. by injection Hfill as <-.
  - intros [[? [=]]|Hnone].
    destruct (col !! 0) as [h|] eqn:Hh.
    + rewrite (mapM_Ok_Forall _ (λ header, contains header h)).
      2: { apply Forall_forall. intros header _.
           by rewrite (getitem_Ok _ _ _ Hh). }
      cbn.
      assert (existsb id ((λ header, contains header h) <$> fill_block) = false)
        as ->; [|by intros [= <-]].
      clear Hr. induction fill_block as [|frag fb IH]; [done|]. cbn.
      rewrite (Hnone frag h) by (done || by left). cbn.
      apply IH. intros frag' h' Hin. apply Hnone. by right.
    + destruct fill_block as [|frag fb]; [by intros [= <-]|].
      rewrite mapM_cons. unfold getitem. by rewrite Hh.
Qed.

(** C4 fails in the block fill: the dense table of [log_four_trials]
    has two columns of five cells; the fill turns the [Procedure]
    column into one of six cells, because the string ["AB"] repeated
    once is assigned character by character to a slice of one cell;
    the transposition then reads past the end of the other column. *)
Theorem block_fill_changes_column_length :
  dense_table remove_dups log_four_trials
    = Ok [["Procedure"; "NULL"; "AB"; "NULL"; "NULL"];
          ["Stim"; "1"; "2"; "3"; "4"]] ∧
  mapM (fill_column (fill_block cfg_demo))
       [["Procedure"; "NULL"; "AB"; "NULL"; "NULL"];
        ["Stim"; "1"; "2"; "3"; "4"]]
    = Ok [["Procedure"; "A"; "B"; "AB"; "NULL"; "NULL"];
          ["Stim"; "1"; "2"; "3"; "4"]] ∧
  text_to_rcsv remove_dups cfg_demo log_four_trials "s1.edat2" "T"
    = Raise IndexError.
Proof. repeat split; vm_compute; reflexivity. Qed.
(** ** The row pruner *)

Lemma foldM_app {A B} (f : B → A → result B) (b : B) (l1 l2 : list A) :
  foldM f b (l1 ++ l2) = b' ← foldM f b l1; foldM f b' l2.
Proof.
  revert b. induction l1 as [|x l1 IH]; intros b; [done|]. cbn.
  destruct (f b x) as [b'|e]; [|done]. cbn. apply IH.
Qed.

Lemma rows_without_ext {A} (dead dead' : nat → bool) (l : list A) k :
  (∀ i, k ≤ i → dead i = dead' i) →
  rows_without dead k l = rows_without dead' k l.
Proof.
  revert k. induction l as [|x l IH]; intros k Hext; [done|]. cbn.
  rewrite (Hext k) by lia. rewrite (IH (S k)); [done|].
  intros i Hi. apply Hext. lia.
Qed.

Lemma rows_without_none {A} (dead : nat → bool) (l : list A) k :
  (∀ i, dead i = false) → rows_without dead k l = l.
Proof.
  intros Hdead. revert k. induction l as [|x l IH]; intros k; [done|]. cbn.
  by rewrite Hdead, IH.
Qed.

(** Popping a position below every dead one. *)
Lemma delete_rows_without {A} (dead : nat → bool) (x : nat) (l : list A) : ∀ k,
  (∀ i, dead i = true → x < i) → k ≤ x → x - k < length l →
  x - k < length (rows_without dead k l) ∧
  delete (x - k) (rows_without dead k l)
  = rows_without (λ i, bool_decide (i = x) || dead i) k l.
Proof.
  induction l as [|y l IH]; intros k Hdead Hk Hx; [cbn in Hx; lia|].
  cbn [rows_without].
  assert (Hlive : dead k = false).
  { destruct (dead k) eqn:Hd; [|done]. apply Hdead in Hd. lia. }
  rewrite Hlive, orb_false_r.
  destruct (decide (k = x)) as [->|Hne].
  - rewrite Nat.sub_diag, bool_decide_eq_true_2 by done. cbn.
    split; [lia|]. apply rows_without_ext. intros i Hi.
    rewrite bool_decide_eq_false_2 by lia. done.
  - rewrite bool_decide_eq_false_2 by done.
    replace (x - k) with (S (x - S k)) by lia. cbn [length delete].
    cbn in Hx. destruct (IH (S k)) as [Hlen Hdel]; [done|lia|lia|].
    split; [lia|]. cbn. by rewrite Hdel.
Qed.

(** Popping increasing positions from the highest down removes
    exactly the elements at these positions. *)
Lemma pop_descending {A} (idxs : list nat) : ∀ l : list A,
  StronglySorted lt idxs → (∀ i, i ∈ idxs → i < length l) →
  foldM pop l (reverse idxs)
  = Ok (rows_without (λ i, bool_decide (i ∈ idxs)) 0 l).
Proof.
  induction idxs as [|x idxs IH]; intros l Hsorted Hrange.
  { cbn. rewrite rows_without_none; [done|]. intros i.
    apply bool_decide_eq_false_2, not_elem_of_nil. }
  apply StronglySorted_inv in Hsorted as [Hsorted Hx].
  rewrite Forall_forall in Hx.
  rewrite reverse_cons, foldM_app, IH; [|done|].
  2: { intros i Hi. apply Hrange. by right. }
  cbn.
  destruct (delete_rows_without (λ i, bool_decide (i ∈ idxs)) x l 0)
    as [Hlen Hdel].
  - intros i Hi%bool_decide_eq_true. by apply Hx.
  - lia.
  - rewrite Nat.sub_0_r. apply Hrange. by left.
  - rewrite Nat.sub_0_r in Hlen, Hdel. unfold pop.
    rewrite decide_True by done. rewrite Hdel. cbn. f_equal.
    apply rows_without_ext. intros i _.
    destruct (decide (i = x)) as [->|Hne].
    + rewrite bool_decide_eq_true_2 by done.
      symmetry. apply bool_decide_eq_true_2. by left.
    + rewrite bool_decide_eq_false_2 by done. cbn.
      apply bool_decide_ext. rewrite elem_of_cons.
      split; [by right|]. intros [Heq|Hi]; [by destruct Hne | done].
Qed.





(** The steps of [reduce_table] behind a returned table. *)
Lemma reduce_table_prunes header_list replacements columns_to_merge
    merge_col_names_list null_column_names data_matrix out :
  reduce_table header_list replacements columns_to_merge merge_col_names_list
               null_column_names data_matrix = Ok out →
  ∃ hl header_index out_matrix nulls_to_merge merged_nulls_list,
    select_table header_list replacements columns_to_merge
                 merge_col_names_list data_matrix
      = Ok (hl, header_index, out_matrix) ∧
    null_check_columns hl header_index null_column_names data_matrix
      = Ok nulls_to_merge ∧
    _merge_lists nulls_to_merge "all_null" = Ok merged_nulls_list ∧
    prune_rows out_matrix merged_nulls_list = Ok out.
Proof.
  unfold reduce_table.
  intros ([[hl header_index] out_matrix] & Hselect & H)%bind_Ok_inv.
  apply bind_Ok_inv in H as (nulls_to_merge & Hnulls & H).
  apply bind_Ok_inv in H as (merged_nulls_list & Hmerge & Hprune).
  by exists hl, header_index, out_matrix, nulls_to_merge, merged_nulls_list.
Qed.


(** ** Header lookup: [list.index] against [_try_index] *)

Lemma list_index_None (x : string) (l : list string) :
  list_index x l = None ↔ x ∉ l.
Proof.
  induction l as [|y l IH]; cbn.
  - split; [intros _; apply not_elem_of_nil | done].
  - rewrite not_elem_of_cons. destruct (decide (y = x)) as [->|Hne].
    + split; [done|]. by intros [? _].
    + destruct (list_index x l) as [i|]; cbn.
      * split; [done|]. intros [_ H]. by apply IH in H.
      * split; [|done]. intros _. split; [done|]. by apply IH.
Qed.

Lemma list_index_lookup (x : string) (l : list string) i :
  list_index x l = Some i → l !! i = Some x.
Proof.
  revert i. induction l as [|y l IH]; intros i; cbn; [done|].
  destruct (decide (y = x)) as [->|Hne]; [by intros [= <-]|].
  destruct (list_index x l) as [j|]; cbn; [|done].
  intros [= <-]. by apply IH.
Qed.

(** A comprehension of [row.index(header)] raises at the first header
    that the row lacks. *)
Lemma mapM_index_missing (row header_list : list string) (name : string) :
  name ∈ header_list → name ∉ row →
  ∃ missing,
    missing ∈ header_list ∧ (missing ∉ row) ∧
    mapM (index row) header_list
    = Raise (ValueError (repr missing +:+ " is not in list")).
Proof.
  intros Hin Hrow. induction header_list as [|h hl IH];
    [by apply not_elem_of_nil in Hin|].
  rewrite mapM_cons.
  destruct (list_index h row) as [i|] eqn:Hh.
  - assert (index row h = Ok i) as -> by (unfold index; by rewrite Hh).
    apply elem_of_cons in Hin as [->|Hin].
    { apply list_index_None in Hrow. congruence. }
    destruct (IH Hin) as (missing & Hm & Hmr & ->).
    exists missing. split; [by right|]. done.
  - assert (index row h = Raise (ValueError (repr h +:+ " is not in list")))
      as -> by (unfold index; by rewrite Hh).
    exists h. split; [by left|]. split; [by apply list_index_None|done].
Qed.

Lemma select_headers_present (wholefile : list (list string))
    (row0 : list string) (header_list : list string) :
  wholefile !! 0 = Some row0 →
  select_headers wholefile header_list
  = (filter (λ hed, hed ∉ row0) header_list,
     Ok (omap (λ hed, list_index hed row0) header_list)).
Proof.
  intros H0. induction header_list as [|hed hl IH]; [done|].
  cbn [select_headers]. rewrite (getitem_Ok _ _ _ H0), IH.
  unfold _try_index, index. cbn [omap list_omap].
  destruct (list_index hed row0) as [i|] eqn:Hi.
  - rewrite filter_cons_False; [reflexivity|].
    intros Hn. apply list_index_None in Hn. congruence.
  - rewrite filter_cons_True by by apply list_index_None. reflexivity.
Qed.

Lemma pop_Ok {A} (l : list A) i : i < length l → pop l i = Ok (delete i l).
Proof. intros H. unfold pop. by rewrite decide_True. Qed.

Lemma pop_front_drop {A} (n : nat) : ∀ (l : list A) k,
  n ≤ length l → foldM (λ l _, pop l 0) l (seq k n) = Ok (drop n l).
Proof.
  induction n as [|n IH]; intros l k Hn; [done|].
  destruct l as [|x l]; [cbn in Hn; lia|]. cbn [seq foldM].
  rewrite pop_Ok by (cbn; lia). cbn.
  apply IH. cbn in Hn. lia.
Qed.

Lemma mapM_total {A B} (f : A → result B) (P : B → Prop) (l : list A) :
  Forall (λ x, ∃ y, f x = Ok y ∧ P y) l →
  ∃ ys, mapM f l = Ok ys ∧ Forall P ys ∧ length ys = length l.
Proof.
  induction 1 as [|x l (y & Hy & HP) _ (ys & Hys & HPs & Hlen)].
  - by exists [].
  - exists (y :: ys). cbn. rewrite Hy. cbn. rewrite Hys. cbn.
    split; [done|]. split; [by constructor|]. by rewrite Hlen.
Qed.

(** A comprehension over [range(len(l))] that reads [l[i]] is a
    comprehension over [l]. *)
Lemma mapM_seq_getitem {A B} (f : A → result B) (l : list A) :
  mapM (λ i, x ← getitem l i; f x) (seq 0 (length l)) = mapM f l.
Proof.
  assert (Hgen : ∀ seen : list A,
    mapM (λ i, x ← getitem (seen ++ l) i; f x) (seq (length seen) (length l))
    = mapM f l).
  { induction l as [|x l IH]; intros seen; [done|].
    cbn [length seq mapM].
    rewrite (getitem_Ok _ _ x) by by apply list_lookup_middle.
    cbn. destruct (f x) as [y|e]; [|done]. cbn.
    specialize (IH (seen ++ [x])).
    rewrite <- app_assoc, length_app in IH. cbn in IH.
    replace (length seen + 1) with (S (length seen)) in IH by lia.
    by rewrite IH. }
  apply (Hgen []).
Qed.

Lemma Forall_rows_without {A} (P : A → Prop) (dead : nat → bool) (l : list A) k :
  Forall P l → Forall P (rows_without dead k l).
Proof.
  intros H. revert k. induction H as [|x l Hx _ IH]; intros k; cbn;
    [constructor|].
  destruct (dead k); [apply IH|]. constructor; [done|apply IH].
Qed.

(** [handle_nulls] never raises and keeps the width of the rows. *)
Lemma handle_nulls_total (remove : bool) (out_arr : list (list string)) n :
  Forall (λ row, length row = n) out_arr →
  ∃ out, handle_nulls remove out_arr = Ok out ∧
         Forall (λ row, length row = n) out.
Proof.
  intros Hwidth. unfold handle_nulls. destruct remove.
  - rewrite pop_descending.
    + eexists. split; [done|]. by apply Forall_rows_without.
    + apply indices_where_sorted.
    + intros i Hi%indices_where_bound. lia.
  - eexists. split; [done|]. apply Forall_forall.
    intros row (row' & -> & Hrow')%list_elem_of_fmap.
    rewrite length_map. rewrite Forall_forall in Hwidth. by apply Hwidth.
Qed.

(** C9: a desired header that the (renamed) header row lacks makes
    [text_to_rcsv] raise the error of [list.index], whereas
    [etext_to_rcsv] prints the missing names, leaves their columns
    out and returns its rows. *)
Theorem missing_header_raises_or_is_skipped :
  (∀ (list_set : list string → list string) (cfg : pickle)
     (text_data : list string) (edat_file task : string)
     (by_suffix : gmap string (gmap string string)) (d : gmap string string)
     (header_list : list string) (dense data_matrix t : list (list string))
     (row0 : list string) (name : string),
     replace_dict cfg !! task = Some by_suffix →
     by_suffix !! (splitext edat_file).2 = Some d →
     headers cfg !! task = Some header_list →
     dense_table list_set text_data = Ok dense →
     mapM (λ col, drop_last_two <$> fill_column (fill_block cfg) col) dense
       = Ok data_matrix →
     _transpose data_matrix = Ok t →
     t !! 0 = Some row0 →
     name ∈ header_list →
     name ∉ ((λ item, default item (d !! item)) <$> row0) →
     ∃ missing,
       missing ∈ header_list ∧
       (missing ∉ ((λ item, default item (d !! item)) <$> row0)) ∧
       text_to_rcsv list_set cfg text_data edat_file task
       = Raise (ValueError (repr missing +:+ " is not in list"))) ∧
  (∀ (cfg : pickle) (in_file : string) (wholefile : list (list string))
     (task delimiter_ : string) (rem_lines : nat)
     (header_list row0 : list string) (rows : list (list string))
     (name : string),
     _det_file_type in_file = Ok (delimiter_, rem_lines) →
     headers cfg !! task = Some header_list →
     drop rem_lines wholefile = row0 :: rows →
     Forall (λ row, length row0 ≤ length row) rows →
     name ∈ header_list →
     name ∉ row0 →
     ∃ out_arr,
       etext_to_rcsv cfg in_file wholefile task
       = (filter (λ hed, hed ∉ row0) header_list, Ok out_arr) ∧
       name ∈ filter (λ hed, hed ∉ row0) header_list ∧
       Forall (λ row, length row
                      = length (filter (λ hed, hed ∈ row0) header_list))
              out_arr).
Proof.
  split.
  - intros list_set cfg text_data edat_file task by_suffix d header_list
      dense data_matrix t row0 name Hsuffix Hd Hheaders Hdense Hfill Ht Hrow0
      Hin Hmissing.
    destruct (mapM_index_missing _ _ _ Hin Hmissing) as (missing & Hm & Hmr & Hraise).
    exists missing. split; [done|]. split; [done|].
    unfold text_to_rcsv. rewrite Hsuffix. cbn. rewrite Hdense. cbn.
    rewrite Hfill. cbn. rewrite Hd, Hheaders.
    unfold reduce_table, select_table. rewrite Ht. cbn. rewrite (getitem_Ok _ _ _ Hrow0). cbn.
    rewrite (mapM_Ok_fmap _ (λ item, default item (d !! item))) by done.
    cbn. by rewrite Hraise.
  - intros cfg in_file wholefile task delimiter_ rem_lines header_list row0 rows
      name Hdet Hheaders Hdrop Hrect Hin Hmissing.
    assert (Hrem : rem_lines ≤ length wholefile).
    { destruct (decide (rem_lines ≤ length wholefile)); [done|].
      rewrite drop_ge in Hdrop by lia. done. }
    assert (Hrows : Forall (λ row, length row0 ≤ length row) (row0 :: rows))
      by by constructor.
    set (header_index := omap (λ hed, list_index hed row0) header_list).
    assert (Hidx : Forall (λ i, i < length row0) header_index).
    { apply Forall_forall. intros i (hed & _ & Hi)%list_elem_of_omap.
      by apply list_index_lookup, lookup_lt_Some in Hi. }
    assert (Hwidth : length header_index
                     = length (filter (λ hed, hed ∈ row0) header_list)).
    { unfold header_index. clear. induction header_list as [|hed hl IH]; [done|].
      cbn [omap list_omap]. destruct (list_index hed row0) as [i|] eqn:Hi.
      - rewrite filter_cons_True.
        + cbn. by rewrite IH.
        + destruct (decide (hed ∈ row0)) as [|Hn]; [done|].
          apply list_index_None in Hn. congruence.
      - rewrite filter_cons_False; [done|]. intros Hn. revert Hn.
        by apply list_index_None. }
    destruct (mapM_total
                (λ row : list string, mapM (getitem row) header_index)
                (λ out : list string, length out = length header_index)
                (row0 :: rows)) as (out_arr & Hout & Hwide & _).
    { eapply Forall_impl; [exact Hrows|]. intros row Hrow. cbn in Hrow.
      destruct (mapM_total (getitem row) (λ _, True) header_index)
        as (out & Hout & _ & Hlen).
      - eapply Forall_impl; [exact Hidx|]. intros i Hi. cbn in Hi.
        destruct (lookup_lt_is_Some_2 row i) as [x Hx]; [lia|].
        exists x. by rewrite (getitem_Ok _ _ _ Hx).
      - by exists out. }
    destruct (handle_nulls_total (default false (remnulls cfg !! task))
                out_arr _ Hwide) as (out & Hnulls & Hfinal).
    exists out. split; [|split].
    + unfold etext_to_rcsv. rewrite Hdet. cbn.
      rewrite pop_front_drop by done. cbn. rewrite Hheaders, Hdrop.
      cbn -[seq length select_headers mapM].
      rewrite (select_headers_present _ row0) by done.
      fold header_index. f_equal. cbn -[seq length mapM].
      rewrite (mapM_seq_getitem (λ row, mapM (getitem row) header_index)
                                (row0 :: rows)).
      rewrite Hout. exact Hnulls.
    + apply list_elem_of_filter. done.
    + by rewrite <- Hwidth.
Qed.

Lemma missing_header_raises_or_is_skipped_witness :
  text_to_rcsv remove_dups cfg_demo
    ["*** LogFrame Start ***"; "Stim: a"; "*** LogFrame End ***";
     "*** LogFrame Start ***"; "Stim: b"; "*** LogFrame End ***";
     "*** LogFrame Start ***"; "Stim: c"; "*** LogFrame End ***"]
    "s1.edat2" "T"
  = Raise (ValueError "'Proc' is not in list") ∧
  (∃ out_arr,
     etext_to_rcsv cfg_demo "s1.csv"
       [["Stim"; "Resp"]; ["a"; "1"]; ["b"; "NULL"]] "T"
     = (["Proc"], Ok out_arr)).
Proof.
  split.
  - destruct (proj1 missing_header_raises_or_is_skipped remove_dups cfg_demo
      ["*** LogFrame Start ***"; "Stim: a"; "*** LogFrame End ***";
       "*** LogFrame Start ***"; "Stim: b"; "*** LogFrame End ***";
       "*** LogFrame Start ***"; "Stim: c"; "*** LogFrame End ***"]
      "s1.edat2" "T"
      {[ ".edat2" := {[ "Procedure" := "Proc" ]} ]} {[ "Procedure" := "Proc" ]}
      ["Stim"; "Proc"] [["Stim"; "a"; "b"; "c"]] [["Stim"; "a"]]
      [["Stim"]; ["a"]] ["Stim"] "Proc")
      as (missing & Hm & Hmr & ->); [reflexivity.. | | |].
    + right. by left.
    + intros H. apply elem_of_cons in H as [H|H]; [vm_compute in H; discriminate H|].
      by apply not_elem_of_nil in H.
    + apply elem_of_cons in Hm as [->|Hm].
      { exfalso. apply Hmr. by left. }
      apply elem_of_cons in Hm as [->|Hm]; [reflexivity|].
      by apply not_elem_of_nil in Hm.
  - destruct (proj2 missing_header_raises_or_is_skipped cfg_demo "s1.csv"
      [["Stim"; "Resp"]; ["a"; "1"]; ["b"; "NULL"]] "T" "," 0
      ["Stim"; "Proc"] ["Stim"; "Resp"] [["a"; "1"]; ["b"; "NULL"]] "Proc")
      as (out_arr & Hrun & _ & _); [reflexivity.. | | | |].
    + repeat constructor.
    + right. by left.
    + intros H. repeat (apply elem_of_cons in H as [H|H]; [discriminate H|]).
      by apply not_elem_of_nil in H.
    + exists out_arr. rewrite Hrun. reflexivity.
Defined.
(** ** The sanitizer *)

Lemma strip_length (s : string) : String.length (_strip s) ≤ String.length s.
Proof.
  induction s as [|a s IH]; [done|]. cbn. destruct (printable a); cbn; lia.
Qed.

Lemma strip_fixed (s : string) : str_forall printable s = true → _strip s = s.
Proof.
  induction s as [|a s IH]; [done|]. cbn.
  intros [Ha Hs]%andb_true_iff. rewrite Ha. by rewrite IH.
Qed.

Lemma strip_printable (s : string) : str_forall printable (_strip s) = true.
Proof.
  induction s as [|a s IH]; [done|]. cbn.
  destruct (printable a) eqn:Ha; [|done]. cbn. by rewrite Ha.
Qed.

(** X1: [_strip] keeps exactly the characters with code 32 to 126, in
    their order: its result holds only such characters, is never
    longer than the line, and sanitizing it again changes nothing. *)
Theorem strip_idempotent (s : string) :
  _strip (_strip s) = _strip s ∧
  str_forall printable (_strip s) = true ∧
  String.length (_strip s) ≤ String.length s.
Proof.
  split; [|split].
  - apply strip_fixed, strip_printable.
  - apply strip_printable.
  - apply strip_length.
Qed.

Lemma str_app_empty_r (s : string) : s +:+ "" = s.
Proof. induction s as [|a s IH]; [done|]. rewrite str_app_cons. by rewrite IH. Qed.

(** X2: [_strip] distributes over concatenation, so what it returns
    for a line does not depend on how the line was put together; in
    particular the line end that [list(fo)] leaves on a line is
    removed. *)
Theorem strip_app (s t : string) :
  _strip (s +:+ t) = _strip s +:+ _strip t ∧
  _strip (s +:+ NL) = _strip s.
Proof.
  assert (Happ : ∀ u, _strip (s +:+ u) = _strip s +:+ _strip u).
  { intros u. induction s as [|a s IH]; [done|].
    rewrite str_app_cons. cbn. destruct (printable a); [|done].
    by rewrite str_app_cons, IH. }
  split; [apply Happ|]. rewrite Happ. change (_strip NL) with "".
  apply str_app_empty_r.
Qed.
(** ** [_transpose] *)

(** A comprehension all of whose failures are the exception [e] raises
    [e] as soon as one element fails. *)
Lemma mapM_Raise {A B} (f : A → result B) (e : exn) (l : list A) :
  (∀ x, x ∈ l → f x = Raise e ∨ ∃ y, f x = Ok y) →
  (∃ x, x ∈ l ∧ f x = Raise e) →
  mapM f l = Raise e.
Proof.
  induction l as [|x l IH]; intros Hall (x0 & Hin & Hx0).
  { by apply not_elem_of_nil in Hin. }
  rewrite mapM_cons.
  destruct (Hall x) as [->|[y Hy]]; [by left|done|]. rewrite Hy. cbn.
  rewrite IH; [done| |].
  - intros z Hz. apply Hall. by right.
  - apply elem_of_cons in Hin as [->|Hin]; [congruence|]. eauto.
Qed.

Lemma getitem_cases {A} (l : list A) i :
  getitem l i = Raise IndexError ∨ ∃ y, getitem l i = Ok y.
Proof. unfold getitem. destruct (l !! i); eauto. Qed.

(** The [i]-th cells of the rows of a table whose rows all hold a cell
    at [i]. *)
Lemma mapM_getitem_column (list_ : list (list string)) i :
  Forall (λ row, i < length row) list_ →
  ∃ col, mapM (λ row, getitem row i) list_ = Ok col ∧
         length col = length list_ ∧
         ∀ j row, list_ !! j = Some row → col !! j = row !! i.
Proof.
  induction 1 as [|row l Hrow _ (col & Hcol & Hlen & Hcells)].
  - exists []. split; [done|]. split; [done|]. intros j row Hj.
    by rewrite lookup_nil in Hj.
  - destruct (lookup_lt_is_Some_2 row i Hrow) as [x Hx].
    exists (x :: col). rewrite mapM_cons, (getitem_Ok _ _ _ Hx). cbn.
    rewrite Hcol. cbn. split; [done|]. split; [by rewrite Hlen|].
    intros [|j] row' Hj; cbn in *; [by injection Hj as <-|by apply Hcells].
Qed.

Lemma filter_all {A} (P : A → Prop) `{∀ x, Decision (P x)} (l : list A) :
  Forall P l → filter P l = l.
Proof.
  induction 1 as [|x l Hx _ IH]; [done|].
  rewrite filter_cons_True by done. by rewrite IH.
Qed.

Lemma transpose_cells (list_ : list (list string)) (first : list string) :
  list_ !! 0 = Some first →
  Forall (λ row, length row = length first) list_ →
  ∃ t,
    _transpose list_ = Ok t ∧
    length t = length first ∧
    Forall (λ col, length col = length list_) t ∧
    ∀ i j x,
      (∃ row, list_ !! j = Some row ∧ row !! i = Some x) ↔
      (∃ col, t !! i = Some col ∧ col !! j = Some x).
Proof.
  intros H0 Hrect. unfold _transpose. rewrite (getitem_Ok _ _ _ H0). cbn.
  destruct (mapM_total (λ i, mapM (λ row, getitem row i) list_)
              (λ col, length col = length list_)
              (seq 0 (length first))) as (t & Ht & Hlens & Hlen).
  { apply Forall_forall. intros i Hi%elem_of_seq.
    destruct (mapM_getitem_column list_ i) as (col & Hcol & Hl & _).
    - eapply Forall_impl; [exact Hrect|]. intros row Hrow. cbn in *. lia.
    - eauto. }
  rewrite length_seq in Hlen.
  assert (Hcells : ∀ i col, t !! i = Some col →
            ∀ j row, list_ !! j = Some row → col !! j = row !! i).
  { intros i col Hi.
    assert (Hlt : i < length first) by (apply lookup_lt_Some in Hi; lia).
    destruct (mapM_getitem_column list_ i) as (col' & Hcol' & _ & Hc).
    { eapply Forall_impl; [exact Hrect|]. intros row Hrow. cbn in *. lia. }
    assert (col = col') as ->; [|done].
    clear -Ht Hi Hcol' Hlt.
    assert (Hgen : ∀ (n k : nat) (t : list (list string)),
      mapM (λ i, mapM (λ row, getitem row i) list_) (seq k n) = Ok t →
      ∀ i col, t !! i = Some col →
      mapM (λ row, getitem row (k + i)) list_ = Ok col).
    { clear. induction n as [|n IH]; intros k t.
      - cbn. intros [= <-] i col Hi. by rewrite lookup_nil in Hi.
      - cbn [seq]. rewrite mapM_cons.
        destruct (mapM (λ row, getitem row k) list_) as [c|] eqn:Hc; [|done].
        cbn. destruct (mapM _ (seq (S k) n)) as [t'|] eqn:Ht'; [|done].
        cbn. intros [= <-] [|i] col Hi; cbn in Hi.
        + injection Hi as <-. by rewrite Nat.add_0_r.
        + replace (k + S i) with (S k + i) by lia. by eapply IH. }
    specialize (Hgen _ _ _ Ht i col Hi). cbn in Hgen. congruence. }
  assert (Hfilter : filter (λ col : list string, col ≠ []) t = t).
  { apply filter_all. eapply Forall_impl; [exact Hlens|].
    intros col Hcol ->. cbn in Hcol. apply lookup_lt_Some in H0. lia. }
  rewrite Ht. cbn. rewrite Hfilter.
  exists t. split; [done|]. split; [done|]. split; [done|].
  intros i j x. split.
  - intros (row & Hj & Hx).
    assert (Hi : i < length t).
    { rewrite Hlen. rewrite Forall_forall in Hrect.
      rewrite <- (Hrect row) by by eapply list_elem_of_lookup_2.
      by eapply lookup_lt_Some. }
    destruct (lookup_lt_is_Some_2 t i Hi) as [col Hcol].
    exists col. split; [done|]. by rewrite (Hcells i col Hcol j row).
  - intros (col & Hi & Hx).
    assert (Hj : j < length list_).
    { rewrite Forall_forall in Hlens.
      rewrite <- (Hlens col) by by eapply list_elem_of_lookup_2.
      by eapply lookup_lt_Some. }
    destruct (lookup_lt_is_Some_2 list_ j Hj) as [row Hrow].
    exists row. split; [done|]. by rewrite <- (Hcells i col Hi j row).
Qed.

(** X3: on a table that is not empty and whose lists are all as long as
    the first, [_transpose] returns the transposed table: as many
    lists as the first list has cells, each as long as the table, with
    the cell [(j, i)] of the table at [(i, j)]. *)
Theorem transpose_rectangular (list_ : list (list string)) (first : list string) :
  list_ !! 0 = Some first →
  Forall (λ row, length row = length first) list_ →
  ∃ t,
    _transpose list_ = Ok t ∧
    length t = length first ∧
    Forall (λ col, length col = length list_) t ∧
    ∀ i j x,
      (∃ row, list_ !! j = Some row ∧ row !! i = Some x) ↔
      (∃ col, t !! i = Some col ∧ col !! j = Some x).
Proof. apply transpose_cells. Qed.

Lemma transpose_rectangular_witness :
  ∃ t, _transpose [["Stim"; "a"; "b"]; ["Resp"; "1"; "2"]] = Ok t ∧
       length t = 3.
Proof.
  destruct (transpose_rectangular [["Stim"; "a"; "b"]; ["Resp"; "1"; "2"]]
              ["Stim"; "a"; "b"]) as (t & Ht & Hlen & _).
  - reflexivity.
  - repeat constructor.
  - exists t. by split.
Defined.

(** X4: transposing twice gives the table back, for a table that is not
    empty and whose lists are equally long and not empty. *)
Theorem transpose_involutive (list_ : list (list string)) (first : list string) :
  list_ !! 0 = Some first → first ≠ [] →
  Forall (λ row, length row = length first) list_ →
  _transpose list_ ≫= _transpose = Ok list_.
Proof.
  intros H0 Hne Hrect.
  destruct (transpose_cells list_ first H0 Hrect) as (t & -> & Hlen & Hlens & Hcells).
  cbn.
  assert (Hpos : 0 < length t) by (rewrite Hlen; destruct first; [done|cbn; lia]).
  destruct (lookup_lt_is_Some_2 t 0 Hpos) as [t0 Ht0].
  assert (Hlen0 : length t0 = length list_).
  { rewrite Forall_forall in Hlens. apply Hlens. by eapply list_elem_of_lookup_2. }
  destruct (transpose_cells t t0 Ht0) as (t' & -> & Hlen' & Hlens' & Hcells').
  { eapply Forall_impl; [exact Hlens|]. intros col Hcol. cbn in *. lia. }
  f_equal. apply list_eq. intros j.
  destruct (list_ !! j) as [row|] eqn:Hrow.
  - assert (Hj : j < length t').
    { rewrite Hlen', Hlen0. by eapply lookup_lt_Some. }
    destruct (lookup_lt_is_Some_2 t' j Hj) as [row' Hrow'].
    rewrite Hrow'. f_equal. apply list_eq. intros i.
    destruct (row !! i) as [x|] eqn:Hx.
    + destruct (proj1 (Hcells i j x)) as (col & Hcol & Hcx); [eauto|].
      destruct (proj1 (Hcells' j i x)) as (r & Hr & Hrx); [eauto|].
      congruence.
    + destruct (row' !! i) as [x|] eqn:Hx'; [|done].
      destruct (proj2 (Hcells' j i x)) as (col & Hcol & Hcx); [eauto|].
      destruct (proj2 (Hcells i j x)) as (r & Hr & Hrx); [eauto|].
      congruence.
  - apply lookup_ge_None. apply lookup_ge_None in Hrow. lia.
Qed.

Lemma transpose_involutive_witness :
  _transpose [["Stim"; "a"; "b"]; ["Resp"; "1"; "2"]] ≫= _transpose
  = Ok [["Stim"; "a"; "b"]; ["Resp"; "1"; "2"]].
Proof.
  apply (transpose_involutive _ ["Stim"; "a"; "b"]);
    [reflexivity | discriminate | repeat constructor].
Defined.

Lemma mapM_cases {A B} (f : A → result B) (e : exn) (l : list A) :
  (∀ x, f x = Raise e ∨ ∃ y, f x = Ok y) →
  mapM f l = Raise e ∨ ∃ ys, mapM f l = Ok ys.
Proof.
  intros Hf. induction l as [|x l IH]; [right; by eexists|].
  rewrite mapM_cons. destruct (Hf x) as [->|[y ->]]; [by left|]. cbn.
  destruct IH as [->|[ys ->]]; [by left|]. right. by eexists.
Qed.

(** X5: a table that is not empty and has a list shorter than its first
    list cannot be transposed: [_transpose] raises [IndexError]
    (lists longer than the first are cut instead, without an error). *)
Theorem transpose_short_list_raises
    (list_ : list (list string)) (first row : list string) :
  list_ !! 0 = Some first → row ∈ list_ → length row < length first →
  _transpose list_ = Raise IndexError.
Proof.
  intros H0 Hrow Hshort. unfold _transpose. rewrite (getitem_Ok _ _ _ H0). cbn.
  rewrite (mapM_Raise _ IndexError); [done| |].
  - intros i _. apply mapM_cases. intros r. apply getitem_cases.
  - exists (length row). split; [apply elem_of_seq; lia|].
    apply mapM_Raise.
    + intros r _. apply getitem_cases.
    + exists row. split; [done|]. by apply getitem_Raise.
Qed.

Lemma transpose_short_list_raises_witness :
  _transpose [["Stim"; "a"; "b"]; ["Resp"; "1"]] = Raise IndexError ∧
  _transpose [["Stim"; "a"]; ["Resp"; "1"; "2"]]
    = Ok [["Stim"; "Resp"]; ["a"; "1"]].
Proof.
  split; [|reflexivity].
  apply (transpose_short_list_raises _ ["Stim"; "a"; "b"] ["Resp"; "1"]);
    [reflexivity | right; by left | cbn; lia].
Defined.
(** ** Lookups by value: [list.index] and [_try_index] *)

Lemma list_index_first (x : string) (l : list string) i :
  list_index x l = Some i ↔
  l !! i = Some x ∧ ∀ j, j < i → l !! j ≠ Some x.
Proof.
  revert i. induction l as [|y l IH]; intros i; cbn.
  - split; [done|]. by intros [? _].
  - destruct (decide (y = x)) as [->|Hne].
    + split.
      * intros [= <-]. split; [done|]. intros j Hj. lia.
      * intros [Hi Hfirst]. destruct i as [|i]; [done|].
        by destruct (Hfirst 0); [lia|].
    + split.
      * destruct (list_index x l) as [k|] eqn:Hk; cbn; [|done].
        intros [= <-]. destruct (proj1 (IH k) eq_refl) as [Hk' Hfirst].
        split; [done|]. intros [|j] Hj; cbn; [congruence|]. apply Hfirst. lia.
      * intros [Hi Hfirst]. destruct i as [|i]; cbn in Hi; [congruence|].
        rewrite (proj2 (IH i)); [done|]. split; [done|].
        intros j Hj. apply (Hfirst (S j)). lia.
Qed.

Lemma repr_char_plain (c : ascii) :
  plain_char c = true → repr_char QUOTE1 c = String c "" ∧ c ≠ QUOTE1.
Proof.
  destruct c as [[|] [|] [|] [|] [|] [|] [|] [|]]; vm_compute; intros H;
    first [discriminate H | split; [reflexivity | discriminate]].
Qed.

(** The [repr] of a string of plain characters is the string between
    apostrophes. *)
Lemma repr_plain (s : string) :
  str_forall plain_char s = true → repr s = "'" +:+ s +:+ "'".
Proof.
  intros Hs.
  assert (Hbody : str_mem QUOTE1 s = false ∧ repr_body QUOTE1 s = s).
  { induction s as [|c s IH]; [done|]. cbn [str_forall] in Hs.
    apply andb_prop in Hs as [Hc Hs].
    destruct (repr_char_plain c Hc) as [Hchar Hquote].
    destruct (IH Hs) as [Hmem Hrest].
    cbn [str_mem repr_body]. rewrite Hchar, Hrest, Hmem.
    by rewrite bool_decide_eq_false_2. }
  destruct Hbody as [Hmem Hbody]. unfold repr. rewrite Hmem.
  cbn [andb]. cbv beta iota zeta. rewrite Hbody. reflexivity.
Qed.

(** X6: [_try_index] finds the first position of [val]: it returns it
    and prints nothing when [val] occurs in the list, and it returns
    [None] and prints [val] when it does not; [list.index], which
    [text_to_rcsv] uses, returns the same position and raises
    [ValueError] in the second case, with the message
    [repr(val) + " is not in list"], in which [repr(val)] is [val]
    between apostrophes when [val] holds only printable characters
    other than the apostrophe and the backslash. *)
Theorem try_index_first_occurrence (list_ : list string) (val : string) :
  (∀ i, list_ !! i = Some val → (∀ j, j < i → list_ !! j ≠ Some val) →
        _try_index list_ val = (Some i, []) ∧ index list_ val = Ok i) ∧
  (val ∉ list_ →
     _try_index list_ val = (None, [val]) ∧
     index list_ val = Raise (ValueError (repr val +:+ " is not in list"))) ∧
  (str_forall plain_char val = true → repr val = "'" +:+ val +:+ "'").
Proof.
  split; [|split].
  - intros i Hi Hfirst.
    assert (Hidx : list_index val list_ = Some i) by by apply list_index_first.
    unfold _try_index, index. by rewrite Hidx.
  - intros Hnone%list_index_None. unfold _try_index, index. by rewrite Hnone.
  - apply repr_plain.
Qed.

Lemma try_index_first_occurrence_witness :
  (_try_index ["Stim"; "Resp"; "Stim"] "Stim" = (Some 0, []) ∧
   index ["Stim"; "Resp"; "Stim"] "Stim" = Ok 0) ∧
  (_try_index ["Stim"; "Resp"; "Stim"] "Resp" = (Some 1, []) ∧
   index ["Stim"; "Resp"; "Stim"] "Resp" = Ok 1) ∧
  (_try_index ["Stim"; "Resp"; "Stim"] "it's" = (None, ["it's"]) ∧
   index ["Stim"; "Resp"; "Stim"] "it's"
   = Raise (ValueError (repr "it's" +:+ " is not in list"))) ∧
  repr "it's" = String QUOTE2 ("it's" +:+ String QUOTE2 "") ∧
  repr "RT" = "'RT'".
Proof.
  split; [|split; [|split; [|split]]].
  - apply (proj1 (try_index_first_occurrence ["Stim"; "Resp"; "Stim"] "Stim") 0);
      [reflexivity | intros j Hj; lia].
  - apply (proj1 (try_index_first_occurrence ["Stim"; "Resp"; "Stim"] "Resp") 1);
      [reflexivity | intros [|j] Hj; [discriminate | lia]].
  - apply (proj1 (proj2
             (try_index_first_occurrence ["Stim"; "Resp"; "Stim"] "it's"))).
    intros H. repeat (apply elem_of_cons in H as [H|H]; [discriminate H|]).
    by apply not_elem_of_nil in H.
  - reflexivity.
  - apply (proj2 (proj2 (try_index_first_occurrence [] "RT"))). reflexivity.
Defined.

(** ** The null handling of [etext_to_rcsv] *)

Lemma rows_without_filter {A} (P : A → Prop) `{∀ x, Decision (P x)}
    (dead : A → bool) (l : list A) : ∀ k (at_ : nat → bool),
  (∀ x, dead x = true ↔ ¬ P x) →
  (∀ i x, l !! i = Some x → at_ (k + i) = dead x) →
  rows_without at_ k l = filter P l.
Proof.
  induction l as [|x l IH]; intros k at_ Hdead Hat; [done|].
  cbn [rows_without]. rewrite <- (Nat.add_0_r k) at 1. rewrite (Hat 0 x eq_refl).
  rewrite (IH (S k) at_ Hdead).
  2: { intros i y Hy. replace (S k + i) with (k + S i) by lia. by apply Hat. }
  destruct (dead x) eqn:Hx.
  - rewrite filter_cons_False; [done|]. by apply Hdead.
  - rewrite filter_cons_True; [done|].
    destruct (decide (P x)) as [|Hn]; [done|]. apply Hdead in Hn. congruence.
Qed.

Lemma existsb_is_null (row : list string) :
  existsb is_null row = true ↔ NULL ∈ row.
Proof.
  induction row as [|x row IH]; cbn.
  - split; [done|]. by intros ?%not_elem_of_nil.
  - rewrite orb_true_iff, elem_of_cons, IH. unfold is_null.
    rewrite bool_decide_eq_true. split; intros [?|?]; auto.
Qed.

Lemma indices_where_lookup {A} (P : A → bool) (l : list A) i x :
  l !! i = Some x → bool_decide (i ∈ indices_where P 0 l) = P x.
Proof.
  intros Hx. destruct (P x) eqn:HP.
  - apply bool_decide_eq_true. apply elem_of_indices_where.
    split; [lia|]. exists x. by rewrite Nat.sub_0_r.
  - apply bool_decide_eq_false. intros (_ & y & Hy & HPy)%elem_of_indices_where.
    rewrite Nat.sub_0_r in Hy. congruence.
Qed.

(** X7: with null removal, [etext_to_rcsv] keeps exactly the rows none
    of whose selected cells is ["NULL"], in their order, and never
    raises there. *)
Theorem remove_null_rows (out_arr : list (list string)) :
  handle_nulls true out_arr = Ok (filter (λ row, NULL ∉ row) out_arr).
Proof.
  unfold handle_nulls. rewrite pop_descending.
  - f_equal. apply (rows_without_filter _ (existsb is_null)).
    + intros row. rewrite existsb_is_null. split; [auto|].
      intros Hn. by destruct (decide (NULL ∈ row)).
    + intros i row Hrow. cbn. by apply indices_where_lookup.
  - apply indices_where_sorted.
  - intros i Hi%indices_where_bound. lia.
Qed.

(** ** The conversion of nulls to ["NaN"] *)

Lemma replace_go_absent (old new s : string) :
  contains old s = false → replace_go old new 0 s = s.
Proof.
  induction s as [|a s IH]; [done|]. cbn [contains replace_go].
  intros [Hp Hs]%orb_false_iff. rewrite Hp. by rewrite IH.
Qed.

Lemma contains_cons (sub : string) a (s : string) :
  contains sub s = true → contains sub (String a s) = true.
Proof. intros H. cbn [contains]. rewrite H. apply orb_true_r. Qed.

Lemma replace_null_has_a (s : string) :
  contains NULL s = true → contains "a" (str_replace NULL "NaN" s) = true.
Proof.
  unfold str_replace. induction s as [|a s IH]; [done|].
  cbn [contains replace_go]. destruct (String.prefix NULL (String a s)).
  - intros _. change ("NaN" +:+ ?x) with (String "N" (String "a" (String "N" x))).
    apply contains_cons. cbn [contains String.prefix].
    destruct (ascii_dec "a" "a"); [|done].
    by destruct (String "N" _).
  - cbn [orb]. intros H. apply contains_cons. by apply IH.
Qed.

Lemma replace_null_not_null (s : string) : str_replace NULL "NaN" s ≠ NULL.
Proof.
  destruct (contains NULL s) eqn:Hs.
  - intros H. apply replace_null_has_a in Hs. rewrite H in Hs. discriminate Hs.
  - unfold str_replace. rewrite replace_go_absent by done.
    intros ->. discriminate Hs.
Qed.

(** X8: without null removal, [etext_to_rcsv] rewrites every cell with
    [replace("NULL", "NaN")] and keeps the shape of the table: a cell
    ["NULL"] becomes ["NaN"], a cell that does not contain ["NULL"] is
    unchanged, and no cell of the result is ["NULL"]. *)
Theorem nulls_become_nan (out_arr : list (list string)) :
  ∃ out,
    handle_nulls false out_arr = Ok out ∧
    length out = length out_arr ∧
    ∀ i row, out_arr !! i = Some row →
      ∃ row', out !! i = Some row' ∧ length row' = length row ∧
        ∀ j cell, row !! j = Some cell →
          ∃ cell', row' !! j = Some cell' ∧
                   cell' ≠ NULL ∧
                   (cell = NULL → cell' = "NaN") ∧
                   (contains NULL cell = false → cell' = cell).
Proof.
  exists (map (map (str_replace NULL "NaN")) out_arr).
  split; [done|]. split; [apply length_map|].
  intros i row Hrow. exists (map (str_replace NULL "NaN") row).
  split; [|split; [apply length_map|]].
  - change (map ?f ?l) with (f <$> l). by rewrite list_lookup_fmap, Hrow.
  - intros j cell Hcell. exists (str_replace NULL "NaN" cell).
    split; [|split; [|split]].
    + change (map ?f ?l) with (f <$> l). by rewrite list_lookup_fmap, Hcell.
    + apply replace_null_not_null.
    + by intros ->.
    + intros H. by apply replace_go_absent.
Qed.

Lemma nulls_become_nan_witness :
  ∃ out,
    handle_nulls false [["Stim"; "Resp"]; ["a"; "NULL"]; ["NULLULL"; "2"]]
      = Ok out ∧
    length out = 3.
Proof.
  destruct (nulls_become_nan [["Stim"; "Resp"]; ["a"; "NULL"]; ["NULLULL"; "2"]])
    as (out & Hrun & Hlen & _).
  exists out. by split.
Defined.

(** ** Rows to skip and preconditions of [etext_to_rcsv] *)

Lemma pop_front_short {A} (n : nat) : ∀ (l : list A) k,
  length l < n → foldM (λ l _, pop l 0) l (seq k n) = Raise IndexError.
Proof.
  induction n as [|n IH]; intros l k Hn; [lia|].
  cbn [seq foldM]. destruct l as [|x l]; [done|].
  rewrite pop_Ok by (cbn; lia). cbn. apply IH. cbn in Hn. lia.
Qed.

(** X9: [etext_to_rcsv] fails before printing anything when the file
    name has no supported extension ([ValueError]), when the file has
    fewer rows than the extension makes it skip ([IndexError]; three
    rows for [.txt]), and when the task has no entry in [headers]
    ([TypeError]). *)
Theorem etext_preconditions (cfg : pickle) (in_file : string)
    (wholefile : list (list string)) (task : string) :
  (∀ e, _det_file_type in_file = Raise e →
        etext_to_rcsv cfg in_file wholefile task = ([], Raise e)) ∧
  (∀ delimiter_ rem_lines,
     _det_file_type in_file = Ok (delimiter_, rem_lines) →
     length wholefile < rem_lines →
     etext_to_rcsv cfg in_file wholefile task = ([], Raise IndexError)) ∧
  (∀ delimiter_ rem_lines,
     _det_file_type in_file = Ok (delimiter_, rem_lines) →
     rem_lines ≤ length wholefile →
     headers cfg !! task = None →
     etext_to_rcsv cfg in_file wholefile task = ([], Raise TypeError)).
Proof.
  split; [|split].
  - intros e He. unfold etext_to_rcsv. by rewrite He.
  - intros d r Hd Hshort. unfold etext_to_rcsv. rewrite Hd. cbn.
    by rewrite pop_front_short.
  - intros d r Hd Hlen Hnone. unfold etext_to_rcsv. rewrite Hd. cbn.
    rewrite pop_front_drop by done. cbn. by rewrite Hnone.
Qed.

Lemma etext_preconditions_witness :
  etext_to_rcsv cfg_demo "s1.edat2" [["Stim"]] "T"
    = ([], Raise (ValueError "Input file name is not .csv or .txt.")) ∧
  etext_to_rcsv cfg_demo "s1.txt" [["a"]; ["b"]] "T" = ([], Raise IndexError) ∧
  etext_to_rcsv cfg_demo "s1.csv" [["Stim"]] "U" = ([], Raise TypeError).
Proof.
  split; [|split].
  - apply (proj1 (etext_preconditions cfg_demo "s1.edat2" [["Stim"]] "T")).
    reflexivity.
  - apply (proj1 (proj2 (etext_preconditions cfg_demo "s1.txt" [["a"]; ["b"]] "T"))
             TAB 3); [reflexivity | cbn; lia].
  - apply (proj2 (proj2 (etext_preconditions cfg_demo "s1.csv" [["Stim"]] "U"))
             "," 0); [reflexivity | cbn; lia | reflexivity].
Defined.
(** ** Policy A: the trailing value *)

Lemma rows_w_vals_trailing (h v : string) n (rest : list string) :
  h ≠ NULL → v ≠ NULL →
  indices_where not_null 0 (h :: replicate n NULL ++ v :: rest)
  = 0 :: S n :: indices_where not_null (S (S n)) rest.
Proof.
  intros Hh Hv. cbn [indices_where]. unfold not_null at 1.
  rewrite bool_decide_eq_true_2 by done.
  rewrite indices_where_app, indices_where_none.
  2: { apply Forall_replicate. by apply bool_decide_eq_false_2; intros H; apply H. }
  rewrite length_replicate. cbn [app indices_where]. unfold not_null at 1.
  by rewrite bool_decide_eq_true_2 by done.
Qed.

Lemma trailing_fill_broadcast (h v : string) (cells : list string) r :
  (h :: cells) !! r = Some v →
  trailing_fill (h :: cells) r = Ok (h :: replicate (length cells) v).
Proof.
  intros Hv. unfold trailing_fill. rewrite (getitem_Ok _ _ _ Hv). cbn [mbind result_bind].
  unfold slice_assign. cbn [length].
  replace (S (length cells) - 1) with (length cells) by lia.
  rewrite drop_ge by (cbn; lia). by rewrite app_nil_r.
Qed.

(** X10: a column that is null except for its header and one value in
    its last cell is filled with that value from the first data cell
    on, in [text_to_csv] as in [text_to_rcsv] (whatever the fill-block
    fragments are).  When the value sits in the cell before the last,
    [text_to_rcsv] fills the column too, the last cell included, and
    [text_to_csv] leaves the column as it is. *)
Theorem trailing_value_broadcast (fill_block : list string) (h v : string) n :
  h ≠ NULL → v ≠ NULL →
  fill_column_csv (h :: replicate n NULL ++ [v]) = Ok (h :: replicate (S n) v) ∧
  fill_column fill_block (h :: replicate n NULL ++ [v])
    = Ok (h :: replicate (S n) v) ∧
  fill_column fill_block (h :: replicate n NULL ++ [v; NULL])
    = Ok (h :: replicate (S (S n)) v) ∧
  fill_column_csv (h :: replicate n NULL ++ [v; NULL])
    = Ok (h :: replicate n NULL ++ [v; NULL]).
Proof.
  intros Hh Hv.
  assert (Hlast : length (replicate n NULL ++ [v]) = S n)
    by (rewrite length_app, length_replicate; cbn; lia).
  assert (Hlast2 : length (replicate n NULL ++ [v; NULL]) = S (S n))
    by (rewrite length_app, length_replicate; cbn; lia).
  assert (Hv1 : (h :: replicate n NULL ++ [v]) !! S n = Some v).
  { rewrite lookup_cons, lookup_app_r by (rewrite length_replicate; lia).
    by rewrite length_replicate, Nat.sub_diag. }
  assert (Hv2 : (h :: replicate n NULL ++ [v; NULL]) !! S n = Some v).
  { rewrite lookup_cons, lookup_app_r by (rewrite length_replicate; lia).
    by rewrite length_replicate, Nat.sub_diag. }
  assert (Hnull : not_null NULL = false) by done.
  split; [|split; [|split]].
  - unfold fill_column_csv, trailing_csv.
    rewrite rows_w_vals_trailing by done. cbn [indices_where length].
    rewrite Hlast. rewrite decide_True by lia.
    rewrite (trailing_fill_broadcast _ v) by done. by rewrite Hlast.
  - unfold fill_column, trailing_rcsv.
    rewrite rows_w_vals_trailing by done. cbn [indices_where length].
    rewrite Hlast. rewrite decide_True by lia.
    rewrite (trailing_fill_broadcast _ v) by done. by rewrite Hlast.
  - unfold fill_column, trailing_rcsv.
    rewrite rows_w_vals_trailing by done. cbn [indices_where length].
    rewrite Hnull, Hlast2. rewrite decide_True by lia.
    rewrite (trailing_fill_broadcast _ v) by done. by rewrite Hlast2.
  - unfold fill_column_csv, trailing_csv.
    rewrite rows_w_vals_trailing by done. cbn [indices_where length].
    rewrite Hnull, Hlast2. by rewrite decide_False by lia.
Qed.

Lemma trailing_value_broadcast_witness :
  fill_column_csv ["NAME"; "NULL"; "NULL"; "V"] = Ok ["NAME"; "V"; "V"; "V"] ∧
  fill_column ["NAM"] ["NAME"; "NULL"; "NULL"; "V"; "NULL"]
    = Ok ["NAME"; "V"; "V"; "V"; "V"].
Proof.
  destruct (trailing_value_broadcast ["NAM"] "NAME" "V" 2) as (H1 & _ & H3 & _);
    [discriminate | discriminate |].
  split; [exact H1 | exact H3].
Defined.
(** ** The dense table builder *)

(** A loop over [range(n)] whose state after [i] rounds is [I i]. *)
Lemma foldM_seq_states {B} (f : B → nat → result B) (I : nat → B) n :
  (∀ i, i < n → f (I i) i = Ok (I (S i))) →
  foldM f (I 0) (seq 0 n) = Ok (I n).
Proof.
  induction n as [|n IH]; intros Hstep; [done|].
  rewrite seq_S, foldM_app, IH by (intros i Hi; apply Hstep; lia).
  cbn. rewrite Hstep by lia. done.
Qed.

Lemma foldM_seq_getitem1 {A B} (g : B → A → result B) (l : list A) (b : B) :
  foldM (λ b i, x ← getitem l i; g b x) b (seq 0 (length l)) = foldM g b l.
Proof.
  assert (Hgen : ∀ (l seen : list A) b,
    foldM (λ b i, x ← getitem (seen ++ l) i; g b x) b
          (seq (length seen) (length l)) = foldM g b l).
  { clear. induction l as [|x l IH]; intros seen b; [done|].
    cbn [length seq foldM].
    rewrite (getitem_Ok _ _ x) by by apply list_lookup_middle.
    cbn. destruct (g b x) as [b'|e]; [|done]. cbn.
    specialize (IH (seen ++ [x]) b').
    rewrite <- app_assoc, length_app in IH. cbn in IH.
    replace (length seen + 1) with (S (length seen)) in IH by lia.
    apply IH. }
  apply (Hgen l [] b).
Qed.

(** The prefilled table: a column per header, null below the header. *)
Lemma null_matrix_closed (n : nat) (hs : list string) :
  null_matrix n hs = Ok ((λ h, h :: replicate n NULL) <$> hs).
Proof.
  unfold null_matrix.
  set (I := λ i, ((λ h, h :: replicate n NULL) <$> take i hs)
                 ++ replicate (length hs - i) (replicate (n + 1) NULL)).
  assert (H0 : replicate (length hs) (replicate (n + 1) NULL) = I 0)
    by (unfold I; by rewrite take_0, Nat.sub_0_r).
  assert (Hn : (λ h, h :: replicate n NULL) <$> hs = I (length hs)).
  { unfold I. by rewrite firstn_all, Nat.sub_diag, app_nil_r. }
  rewrite H0, Hn. apply foldM_seq_states. intros i Hi.
  destruct (lookup_lt_is_Some_2 hs i Hi) as [h Hh].
  rewrite (getitem_Ok _ _ _ Hh). cbn [mbind result_bind].
  assert (Hlen : length ((λ h, h :: replicate n NULL) <$> take i hs) = i)
    by (rewrite length_fmap, length_take; lia).
  rewrite (setitem2_Ok _ i 0 (replicate (n + 1) NULL)).
  - f_equal. unfold I. rewrite insert_app_r_alt by lia. rewrite Hlen, Nat.sub_diag.
    replace (length hs - i) with (S (length hs - S i)) by lia.
    rewrite (take_S_r _ _ _ Hh), fmap_app, <- app_assoc.
    replace (n + 1) with (S n) by lia. done.
  - unfold I. rewrite lookup_app_r by lia. rewrite Hlen, Nat.sub_diag.
    apply lookup_replicate_2. lia.
  - rewrite length_replicate. lia.
Qed.

(** The loop over the headers for one field: every column named as the
    field gets its value at row [i]. *)
Lemma fill_headers_loop (hs : list string) (c : string → list string)
    (i : nat) (name value : string) :
  (∀ h, h ∈ hs → i < length (c h)) →
  foldM (λ dm k, h ← getitem hs k;
                 if decide (name = h) then setitem2 dm k i value else Ok dm)
        (c <$> hs) (seq 0 (length hs))
  = Ok ((λ h, if decide (name = h) then <[i := value]> (c h) else c h) <$> hs).
Proof.
  intros Hlong.
  set (c' := λ h, if decide (name = h) then <[i := value]> (c h) else c h).
  set (I := λ k, (c' <$> take k hs) ++ (c <$> drop k hs)).
  assert (H0 : c <$> hs = I 0) by (unfold I; by rewrite take_0, drop_0).
  assert (Hn : c' <$> hs = I (length hs)).
  { unfold I. by rewrite firstn_all, drop_all, app_nil_r. }
  rewrite H0, Hn. apply foldM_seq_states. intros k Hk.
  destruct (lookup_lt_is_Some_2 hs k Hk) as [h Hh].
  rewrite (getitem_Ok _ _ _ Hh). cbn [mbind result_bind].
  assert (Hlen : length (c' <$> take k hs) = k)
    by (rewrite length_fmap, length_take; lia).
  assert (Hnext : I (S k) = (c' <$> take k hs) ++ c' h :: (c <$> drop (S k) hs)).
  { unfold I. by rewrite (take_S_r _ _ _ Hh), fmap_app, <- app_assoc. }
  assert (Hcur : I k = (c' <$> take k hs) ++ c h :: (c <$> drop (S k) hs)).
  { unfold I. by rewrite (drop_S _ _ _ Hh). }
  rewrite Hnext. destruct (decide (name = h)) as [Heq|Hne].
  - rewrite (setitem2_Ok _ k i (c h)).
    + f_equal. rewrite Hcur, insert_app_r_alt by lia.
      rewrite Hlen, Nat.sub_diag. cbn.
      assert (c' h = <[i := value]> (c h)) as ->
        by (unfold c'; by rewrite decide_True).
      done.
    + rewrite Hcur, lookup_app_r by lia. by rewrite Hlen, Nat.sub_diag.
    + apply Hlong. by eapply list_elem_of_lookup_2.
  - assert (c' h = c h) as -> by (unfold c'; by rewrite decide_False).
    by rewrite Hcur.
Qed.

Lemma upd_line_length i c line h : length (upd_line i c line h) = length (c h).
Proof. unfold upd_line. case_decide; [apply length_insert|done]. Qed.

(** The loop over the lines of one block. *)
Lemma fill_block_loop (hs block : list string) (i : nat) :
  ∀ c : string → list string,
  Forall field_line block →
  (∀ h, h ∈ hs → i < length (c h)) →
  foldM (λ dm line,
           split_header_idx ← str_index ": " line;
           foldM (λ dm k, h ← getitem hs k;
                    if decide (str_take split_header_idx line = h)
                    then setitem2 dm k i (str_drop (split_header_idx + 2) line)
                    else Ok dm)
                 dm (seq 0 (length hs)))
        (c <$> hs) block
  = Ok (upd_lines i c block <$> hs).
Proof.
  induction block as [|line block IH]; intros c Hlines Hlong; [done|].
  apply Forall_cons in Hlines as [[idx Hidx] Hlines].
  assert (Hix : str_index ": " line = Ok idx)
    by (unfold str_index; by rewrite Hidx).
  cbn [foldM upd_lines]. rewrite Hix. cbn [mbind result_bind].
  rewrite fill_headers_loop by done. cbn [mbind result_bind].
  assert (Hupd : (λ h, if decide (str_take idx line = h)
                       then <[i := str_drop (idx + 2) line]> (c h) else c h)
                 = upd_line i c line).
  { unfold upd_line, field_name, field_value. by rewrite Hidx. }
  rewrite Hupd. apply IH; [done|].
  intros h Hh. rewrite upd_line_length. by apply Hlong.
Qed.

Lemma upd_lines_cell (block : list string) (i : nat) (h : string) :
  ∀ (c : string → list string) x,
  c h !! i = Some x →
  upd_lines i c block h = <[i := cell_from x h block]> (c h).
Proof.
  induction block as [|line block IH]; intros c x Hx; cbn [upd_lines cell_from].
  - by rewrite list_insert_id.
  - pose proof (lookup_lt_Some _ _ _ Hx) as Hlt.
    rewrite (IH (upd_line i c line)
               (if decide (field_name line = h) then field_value line else x)).
    + unfold upd_line. case_decide; [|done]. by rewrite list_insert_insert_eq.
    + unfold upd_line. case_decide; [|done]. by apply list_lookup_insert_eq.
Qed.

(** The loop over the blocks, from the prefilled table: the cell of
    trial [r] in the column of [h] is the value that the block [r]
    reports for [h]. *)
Lemma fill_matrix_closed (hs : list string) (blocks : list (list string)) :
  Forall (Forall field_line) blocks →
  fill_matrix (length blocks) hs blocks
    ((λ h, h :: replicate (length blocks) NULL) <$> hs)
  = Ok ((λ h, h :: (cell_of h <$> blocks)) <$> hs).
Proof.
  intros Hlines. unfold fill_matrix.
  set (n := length blocks).
  set (C := λ i h, h :: (cell_of h <$> take i blocks) ++ replicate (n - i) NULL).
  assert (H0 : (λ h, h :: replicate n NULL) <$> hs = C 0 <$> hs).
  { unfold C. by rewrite take_0, Nat.sub_0_r. }
  assert (Hn : (λ h, h :: (cell_of h <$> blocks)) <$> hs = C n <$> hs).
  { unfold C, n. apply list_fmap_ext. intros _ h _.
    by rewrite firstn_all, Nat.sub_diag, app_nil_r. }
  rewrite H0, Hn.
  apply (foldM_seq_states _ (λ i, C i <$> hs)). intros i Hi.
  destruct (lookup_lt_is_Some_2 blocks i Hi) as [block Hblock].
  rewrite (getitem_Ok _ _ _ Hblock). cbn [mbind result_bind].
  rewrite (foldM_seq_getitem1
    (λ dm line,
       split_header_idx ← str_index ": " line;
       foldM (λ dm k, h ← getitem hs k;
                if decide (str_take split_header_idx line = h)
                then setitem2 dm k (i + 1) (str_drop (split_header_idx + 2) line)
                else Ok dm)
             dm (seq 0 (length hs)))).
  assert (Hlen : ∀ h, length (cell_of h <$> take i blocks) = i)
    by (intros h; rewrite length_fmap, length_take; lia).
  rewrite fill_block_loop.
  - f_equal. apply list_fmap_ext. intros _ h _.
    rewrite (upd_lines_cell block (i + 1) h (C i) NULL).
    + unfold C. replace (i + 1) with (S i) by lia.
      change (<[S i := ?v]> (h :: ?l)) with (h :: <[i := v]> l).
      rewrite insert_app_r_alt by (rewrite Hlen; lia).
      rewrite Hlen, Nat.sub_diag.
      replace (n - i) with (S (n - S i)) by lia. cbn.
      by rewrite (take_S_r _ _ _ Hblock), fmap_app, <- app_assoc.
    + unfold C. replace (i + 1) with (S i) by lia. rewrite lookup_cons.
      rewrite lookup_app_r by (rewrite Hlen; lia). rewrite Hlen, Nat.sub_diag.
      apply lookup_replicate_2. lia.
  - rewrite Forall_forall in Hlines. apply Hlines.
    by eapply list_elem_of_lookup_2.
  - intros h _. unfold C. cbn [length].
    rewrite length_app, Hlen, length_replicate. lia.
Qed.

Lemma dense_table_frames (list_set : list string → list string)
    (text_data : list string)
    (segs : list (list string * list string)) (post : list string) :
  segs ≠ [] → well_formed_frames segs post →
  _strip <$> text_data = frames_log segs post →
  dense_table list_set text_data
  = Ok ((λ h, h :: (cell_of h <$> (snd <$> segs)))
          <$> list_set (field_name <$> concat (snd <$> segs))).
Proof.
  intros Hne Hwf Hlog.
  destruct (segmenter_on_frames _ segs post Hne Hwf Hlog)
    as (Hstarts & _ & Hcheck & Hblocks).
  unfold dense_table. rewrite Hcheck. cbn [mbind result_bind].
  rewrite Hblocks. cbn [mbind result_bind]. rewrite Hstarts.
  rewrite null_matrix_closed. cbn [mbind result_bind].
  rewrite <- (length_fmap snd segs).
  apply fill_matrix_closed.
  destruct Hwf as [Hsegs _]. apply Forall_fmap.
  eapply Forall_impl; [exact Hsegs|]. by intros seg [_ ?].
Qed.

(** X11: for a log of correctly nested frames (at least one) whose
    block lines are field lines, the dense table holds one column per
    header that [list(set(...))] returns for the names of all field
    lines: the header cell, then one cell per trial with the value of
    the last line of its block that has this name, and ["NULL"] when
    the block has none.  This holds for any order of the headers. *)
Theorem dense_table_cells (list_set : list string → list string)
    (text_data : list string)
    (segs : list (list string * list string)) (post : list string) :
  segs ≠ [] → well_formed_frames segs post →
  _strip <$> text_data = frames_log segs post →
  dense_table list_set text_data
  = Ok ((λ h, h :: (cell_of h <$> (snd <$> segs)))
          <$> list_set (field_name <$> concat (snd <$> segs))).
Proof. apply dense_table_frames. Qed.

Lemma dense_table_cells_witness :
  dense_table remove_dups
    ["*** Header Start ***";
     "*** LogFrame Start ***"; "Stim: a"; "Resp: 1"; "Stim: b";
     "*** LogFrame End ***";
     "*** LogFrame Start ***"; "Resp: 2"; "*** LogFrame End ***"]
  = Ok [["Stim"; "b"; "NULL"]; ["Resp"; "1"; "2"]].
Proof.
  etrans; [apply (dense_table_cells remove_dups _
           [(["*** Header Start ***"], ["Stim: a"; "Resp: 1"; "Stim: b"]);
            ([], ["Resp: 2"])] []) | reflexivity].
  - discriminate.
  - split; [|constructor].
    repeat constructor; try discriminate; by eexists.
  - reflexivity.
Defined.
(** ** The table of [text_to_csv] *)

Lemma csv_fill_cut (data_matrix : list (list string)) :
  mapM (λ col, drop_last_two <$> fill_column_csv col) data_matrix
  = Ok (csv_column <$> data_matrix).
Proof.
  apply mapM_Ok_fmap. intros col. unfold csv_column.
  destruct (fill_column_csv_length col) as (col' & -> & _). done.
Qed.

Lemma csv_column_length (col : list string) :
  length (csv_column col) = length col - 2.
Proof.
  unfold csv_column. destruct (fill_column_csv_length col) as (col' & -> & Hlen).
  cbn [ok_or]. rewrite drop_last_two_length. lia.
Qed.

Lemma trailing_csv_last (col : list string) r :
  trailing_csv col = Some r → r = length col - 1.
Proof.
  unfold trailing_csv.
  destruct (indices_where not_null 0 col) as [|r0 [|r1 [|]]]; try done.
  case_decide; [|done]. by intros [= <-].
Qed.

(** The cells that the cut keeps: those of the column, or the trailing
    value below the header when the trailing fill applies. *)
Lemma csv_column_cell (col : list string) i :
  i < length col - 2 →
  csv_column col !! i
  = match trailing_csv col with
    | Some r => if decide (i = 0) then col !! 0 else col !! r
    | None => col !! i
    end.
Proof.
  intros Hi. unfold csv_column, fill_column_csv.
  destruct (trailing_csv col) as [r|] eqn:Hr.
  - pose proof (trailing_csv_last _ _ Hr) as ->.
    destruct (lookup_lt_is_Some_2 col (length col - 1)) as [v Hv]; [lia|].
    unfold trailing_fill. rewrite (getitem_Ok _ _ _ Hv). cbn [mbind result_bind ok_or].
    unfold drop_last_two.
    rewrite length_slice_assign_replicate by lia.
    rewrite lookup_take_lt by done.
    destruct (decide (i = 0)) as [->|Hne].
    + by rewrite lookup_slice_assign_before by lia.
    + rewrite lookup_slice_assign_inside by lia. done.
  - cbn. unfold drop_last_two. by rewrite lookup_take_lt.
Qed.

(** X12: what [text_to_csv] writes for a log of [n >= 1] correctly
    nested frames whose block lines are field lines.  Without any
    field it raises [IndexError].  Otherwise it writes [n - 1] rows,
    one cell per discovered header each: for [n >= 2] the header row,
    then the trials but the last two; the cell of a trial under a
    header is the value that its block reports for it (["NULL"] when
    it reports none), except in a column to which the trailing fill
    applies, whose cells all hold the value of the last trial. *)
Theorem text_to_csv_table (list_set : list string → list string)
    (text_data : list string)
    (segs : list (list string * list string)) (post : list string) :
  segs ≠ [] → well_formed_frames segs post →
  _strip <$> text_data = frames_log segs post →
  let blocks := snd <$> segs in
  let hs := list_set (field_name <$> concat blocks) in
  (hs = [] → text_to_csv list_set text_data = Raise IndexError) ∧
  (hs ≠ [] →
   ∃ out,
     text_to_csv list_set text_data = Ok out ∧
     length out = length segs - 1 ∧
     Forall (λ row, length row = length hs) out ∧
     (2 ≤ length segs → out !! 0 = Some hs) ∧
     ∀ k h r block,
       hs !! k = Some h → blocks !! r = Some block → r + 2 < length segs →
       ∃ row,
         out !! (r + 1) = Some row ∧
         row !! k = match trailing_csv (dense_column blocks h) with
                    | None => Some (cell_of h block)
                    | Some last => dense_column blocks h !! last
                    end).
Proof.
  intros Hne Hwf Hlog blocks hs.
  assert (Hrun : text_to_csv list_set text_data
                 = _transpose (csv_column <$> (dense_column blocks <$> hs))).
  { unfold text_to_csv. rewrite (dense_table_frames _ _ segs post) by done.
    cbn [mbind result_bind]. by rewrite csv_fill_cut. }
  rewrite Hrun. clear Hrun.
  assert (Hn : length blocks = length segs) by apply length_fmap.
  assert (Hcol : ∀ h, length (dense_column blocks h) = S (length segs)).
  { intros h. unfold dense_column. cbn. by rewrite length_fmap, Hn. }
  assert (Hcut : ∀ h, length (csv_column (dense_column blocks h)) = length segs - 1).
  { intros h. rewrite csv_column_length, Hcol. lia. }
  split; [by intros ->|]. intros Hhs.
  destruct hs as [|h0 hs'] eqn:Hhseq; [done|]. rewrite <- Hhseq in *.
  set (t := csv_column <$> (dense_column blocks <$> hs)).
  assert (Ht : ∀ k h, hs !! k = Some h →
                 t !! k = Some (csv_column (dense_column blocks h))).
  { intros k h Hk. unfold t. by rewrite !list_lookup_fmap, Hk. }
  destruct (transpose_cells t (csv_column (dense_column blocks h0)))
    as (out & Hout & Hlen & Hrows & Hcells).
  { apply Ht. by rewrite Hhseq. }
  { unfold t. apply Forall_fmap, Forall_fmap, Forall_forall. intros h _. cbn.
    by rewrite !Hcut. }
  assert (Hwidth : length t = length hs) by (unfold t; by rewrite !length_fmap).
  rewrite Hcut in Hlen. rewrite Hwidth in Hrows.
  exists out. split; [done|]. split; [done|]. split; [done|].
  assert (Hcell : ∀ k h i, hs !! k = Some h → i < length segs - 1 →
            ∃ row x, out !! i = Some row ∧ row !! k = Some x ∧
                     csv_column (dense_column blocks h) !! i = Some x).
  { intros k h i Hk Hi.
    destruct (lookup_lt_is_Some_2 (csv_column (dense_column blocks h)) i)
      as [x Hx]; [by rewrite Hcut|].
    destruct (proj1 (Hcells i k x)) as (row & Hrow & Hrx); [eauto|].
    by exists row, x. }
  split.
  - intros H2.
    destruct (lookup_lt_is_Some_2 out 0) as [row0 Hrow0]; [lia|].
    rewrite Hrow0. f_equal. apply list_eq. intros k.
    destruct (hs !! k) as [h|] eqn:Hk.
    + destruct (Hcell k h 0 Hk) as (row & x & Hrow & Hx & Hc); [lia|].
      rewrite csv_column_cell in Hc by (rewrite Hcol; lia).
      assert (x = h) as ->.
      { assert (dense_column blocks h !! 0 = Some h) as H0 by done.
        destruct (trailing_csv _); [rewrite decide_True in Hc by done|];
          congruence. }
      congruence.
    + apply lookup_ge_None. apply lookup_ge_None in Hk.
      rewrite Forall_forall in Hrows.
      rewrite (Hrows row0) by by eapply list_elem_of_lookup_2. done.
  - intros k h r block Hk Hblock Hr.
    destruct (Hcell k h (r + 1) Hk) as (row & x & Hrow & Hx & Hc); [lia|].
    exists row. split; [done|]. rewrite Hx, <- Hc.
    rewrite csv_column_cell by (rewrite Hcol; lia).
    destruct (trailing_csv (dense_column blocks h)) as [last|].
    + by rewrite decide_False by lia.
    + unfold dense_column. replace (r + 1) with (S r) by lia.
      by rewrite lookup_cons, list_lookup_fmap, Hblock.
Qed.

Lemma text_to_csv_table_witness :
  ∃ out,
    text_to_csv remove_dups
      ["*** LogFrame Start ***"; "Stim: a"; "Resp: 1"; "*** LogFrame End ***";
       "*** LogFrame Start ***"; "Stim: b"; "*** LogFrame End ***";
       "*** LogFrame Start ***"; "Stim: c"; "*** LogFrame End ***";
       "*** LogFrame Start ***"; "Stim: d"; "*** LogFrame End ***"] = Ok out ∧
    length out = 3 ∧
    out !! 0 = Some ["Resp"; "Stim"].
Proof.
  destruct (text_to_csv_table remove_dups
    ["*** LogFrame Start ***"; "Stim: a"; "Resp: 1"; "*** LogFrame End ***";
     "*** LogFrame Start ***"; "Stim: b"; "*** LogFrame End ***";
     "*** LogFrame Start ***"; "Stim: c"; "*** LogFrame End ***";
     "*** LogFrame Start ***"; "Stim: d"; "*** LogFrame End ***"]
    [([], ["Stim: a"; "Resp: 1"]); ([], ["Stim: b"]); ([], ["Stim: c"]);
     ([], ["Stim: d"])] []) as [_ Htable].
  - discriminate.
  - split; [|constructor]. repeat constructor; by eexists.
  - reflexivity.
  - destruct Htable as (out & Hout & Hlen & _ & Hhead & _); [discriminate|].
    exists out. split; [exact Hout|]. split; [exact Hlen|].
    apply Hhead. cbn. lia.
Defined.

(** ** [_merge_lists] on lists of unequal lengths *)

Lemma mapM_ext_in {A B} (f g : A → result B) (l : list A) :
  (∀ x, x ∈ l → f x = g x) → mapM f l = mapM g l.
Proof.
  induction l as [|x l IH]; intros Hext; [done|].
  rewrite !mapM_cons, (Hext x) by by left.
  destruct (g x) as [y|e]; [|done]. cbn.
  rewrite IH; [done|]. intros z Hz. apply Hext. by right.
Qed.

Lemma mapM_Ok_length {A B} (f : A → result B) (l : list A) ys :
  mapM f l = Ok ys → length ys = length l.
Proof.
  revert ys. induction l as [|x l IH]; intros ys; [by intros [= <-]|].
  rewrite mapM_cons. destruct (f x) as [y|e]; [|done]. cbn.
  destruct (mapM f l) as [k|e]; [|done]. cbn. intros [= <-]. cbn.
  by rewrite (IH k).
Qed.

(** A merge step keeps the length of the running merge. *)
Lemma merge_step_length option merged col r :
  merge_step option merged col = Ok r → length r = length merged.
Proof.
  unfold merge_step. repeat case_decide.
  - intros ->%mapM_Ok_length. apply length_seq.
  - intros ->%mapM_Ok_length. apply length_seq.
  - by intros [= <-].
Qed.

(** It reads no cell of [col] beyond the length of the running merge. *)
Lemma merge_step_take option merged col :
  merge_step option merged col
  = merge_step option merged (take (length merged) col).
Proof.
  assert (Hget : ∀ i, i ∈ seq 0 (length merged) →
            getitem (take (length merged) col) i = getitem col i).
  { intros i Hi%elem_of_seq. unfold getitem. rewrite lookup_take_lt; [done|lia]. }
  unfold merge_step. repeat case_decide; [| |done];
    apply mapM_ext_in; intros i Hi; by rewrite Hget.
Qed.

(** It raises [IndexError] at the first row that [col] lacks. *)
Lemma merge_step_short option merged col :
  option = "all_null" ∨ option = "all_else" →
  length col < length merged →
  merge_step option merged col = Raise IndexError.
Proof.
  intros Hopt Hlen.
  assert (Hin : length col ∈ seq 0 (length merged)) by (apply elem_of_seq; lia).
  assert (Hcol : getitem col (length col) = Raise IndexError)
    by by apply getitem_Raise.
  unfold merge_step. destruct Hopt as [-> | ->].
  - rewrite decide_True by done. apply mapM_Raise.
    + intros i _. destruct (getitem_cases col i) as [->|[x ->]]; [by left|].
      cbn. case_decide; [right; by eexists|]. apply getitem_cases.
    + exists (length col). split; [done|]. by rewrite Hcol.
  - rewrite decide_False, decide_True by done. apply mapM_Raise.
    + intros i _. destruct (getitem_cases col i) as [->|[x ->]]; [by left|].
      cbn. case_decide; [right; by eexists|]. apply getitem_cases.
    + exists (length col). split; [done|]. by rewrite Hcol.
Qed.

Lemma merge_step_long option merged col :
  length merged ≤ length col →
  ∃ r, merge_step option merged col = Ok r.
Proof.
  intros Hlen.
  assert (Hrow : ∀ i, i ∈ seq 0 (length merged) →
            ∃ x m, getitem col i = Ok x ∧ getitem merged i = Ok m).
  { intros i Hi%elem_of_seq.
    destruct (lookup_lt_is_Some_2 col i) as [x Hx]; [lia|].
    destruct (lookup_lt_is_Some_2 merged i) as [m Hm]; [lia|].
    exists x, m. by rewrite (getitem_Ok _ _ _ Hx), (getitem_Ok _ _ _ Hm). }
  unfold merge_step. repeat case_decide; [| |by eexists].
  - destruct (mapM_total
      (λ i_row, x ← getitem col i_row;
                if decide (x = NULL) then Ok x else getitem merged i_row)
      (λ _, True) (seq 0 (length merged))) as (r & Hr & _); [|by exists r].
    apply Forall_forall. intros i (x & m & -> & ->)%Hrow. cbn.
    case_decide; eauto.
  - destruct (mapM_total
      (λ i_row, x ← getitem col i_row;
                if decide (x ≠ NULL) then Ok x else getitem merged i_row)
      (λ _, True) (seq 0 (length merged))) as (r & Hr & _); [|by exists r].
    apply Forall_forall. intros i (x & m & -> & ->)%Hrow. cbn.
    case_decide; eauto.
Qed.

Lemma fold_merge_take option (cols : list (list string)) : ∀ merged,
  foldM (merge_step option) merged cols
  = foldM (merge_step option) merged (take (length merged) <$> cols).
Proof.
  induction cols as [|col cols IH]; intros merged; [done|].
  cbn [fmap list_fmap foldM]. rewrite <- merge_step_take.
  destruct (merge_step option merged col) as [r|e] eqn:Hstep; [|done]. cbn.
  rewrite IH. by rewrite (merge_step_length _ _ _ _ Hstep).
Qed.

Lemma fold_merge_long option (cols : list (list string)) : ∀ merged,
  Forall (λ col, length merged ≤ length col) cols →
  ∃ r, foldM (merge_step option) merged cols = Ok r ∧
       length r = length merged.
Proof.
  induction cols as [|col cols IH]; intros merged Hlong; [by exists merged|].
  apply Forall_cons in Hlong as [Hcol Hlong].
  destruct (merge_step_long option merged col Hcol) as [r Hr].
  pose proof (merge_step_length _ _ _ _ Hr) as Hlen.
  destruct (IH r) as (r' & Hr' & Hlen'); [by rewrite Hlen|].
  exists r'. cbn. rewrite Hr. cbn. split; [done|]. by rewrite Hlen'.
Qed.

Lemma fold_merge_short option (cols : list (list string)) : ∀ merged,
  option = "all_null" ∨ option = "all_else" →
  Exists (λ col, length col < length merged) cols →
  foldM (merge_step option) merged cols = Raise IndexError.
Proof.
  induction cols as [|col cols IH]; intros merged Hopt Hshort.
  { by apply Exists_nil in Hshort. }
  cbn. destruct (decide (length col < length merged)) as [Hcol|Hcol].
  { by rewrite merge_step_short. }
  destruct (merge_step_long option merged col) as [r Hr]; [lia|].
  rewrite Hr. cbn. pose proof (merge_step_length _ _ _ _ Hr) as Hlen.
  apply IH; [done|]. rewrite Hlen.
  by apply Exists_cons in Hshort as [?|?].
Qed.

(** X13: [_merge_lists] measures everything by its first list.  The
    cells that other lists hold beyond the length of the first are
    never read: cutting every list to that length changes nothing.
    When no list is shorter than the first, the merge has the length
    of the first; under [all_null] and [all_else] a list shorter than
    the first makes the call raise [IndexError]. *)
Theorem merge_lists_ragged (lists : list (list string)) (first : list string)
    (option : string) :
  lists !! 0 = Some first →
  _merge_lists lists option
    = _merge_lists (take (length first) <$> lists) option ∧
  (Forall (λ col, length first ≤ length col) lists →
   ∃ merged, _merge_lists lists option = Ok merged ∧
             length merged = length first) ∧
  (option = "all_null" ∨ option = "all_else" →
   Exists (λ col, length col < length first) lists →
   _merge_lists lists option = Raise IndexError).
Proof.
  intros H0. unfold _merge_lists.
  assert (Hcut : (take (length first) <$> lists) !! 0 = Some first).
  { rewrite list_lookup_fmap, H0. cbn. by rewrite firstn_all. }
  rewrite (getitem_Ok _ _ _ H0), (getitem_Ok _ _ _ Hcut). cbn.
  split; [apply fold_merge_take|]. split.
  - apply fold_merge_long.
  - apply fold_merge_short.
Qed.

Lemma merge_lists_ragged_witness :
  _merge_lists [["NULL"; "X"]; ["Y"; "NULL"; "Z"]] "all_else"
    = _merge_lists [["NULL"; "X"]; ["Y"; "NULL"]] "all_else" ∧
  _merge_lists [["NULL"; "X"]; ["Y"]] "all_else" = Raise IndexError.
Proof.
  destruct (merge_lists_ragged [["NULL"; "X"]; ["Y"; "NULL"; "Z"]]
              ["NULL"; "X"] "all_else" eq_refl) as (Hcut & _).
  destruct (merge_lists_ragged [["NULL"; "X"]; ["Y"]]
              ["NULL"; "X"] "all_else" eq_refl) as (_ & _ & Hshort).
  split; [exact Hcut|].
  apply Hshort; [by right|]. apply Exists_cons_tl, Exists_cons_hd. cbn. lia.
Defined.

Lemma fold_merge_unknown option (cols : list (list string)) : ∀ merged,
  option ≠ "all_null" → option ≠ "all_else" →
  foldM (merge_step option) merged cols = Ok merged.
Proof.
  induction cols as [|col cols IH]; intros merged H1 H2; [done|].
  cbn [foldM].
  assert (merge_step option merged col = Ok merged) as ->.
  { unfold merge_step. by rewrite !decide_False. }
  cbn. by apply IH.
Qed.

(** X14: with an option other than [all_null] and [all_else],
    [_merge_lists] merges nothing: it returns its first list, whatever
    the other lists hold and however long they are, and raises
    [IndexError] when there is no list. *)
Theorem merge_lists_unknown_option (lists : list (list string))
    (option : string) :
  option ≠ "all_null" → option ≠ "all_else" →
  _merge_lists lists option = getitem lists 0.
Proof.
  intros H1 H2. unfold _merge_lists.
  destruct (getitem lists 0) as [first|e]; [|done]. cbn.
  by apply fold_merge_unknown.
Qed.

Lemma merge_lists_unknown_option_witness :
  _merge_lists [["NULL"; "X"]; ["Y"]] "any_null" = Ok ["NULL"; "X"] ∧
  _merge_lists [] "any_null" = Raise IndexError.
Proof.
  split; by rewrite merge_lists_unknown_option.
Defined.

(** ** The marker validation, read on the lines of the log *)

Lemma length_indices_where_is_row (marker : string) (log : list string) k :
  length (indices_where (is_row marker) k log) = count_rows marker log.
Proof.
  unfold count_rows. revert k. induction log as [|row log IH]; intros k; [done|].
  cbn [indices_where]. rewrite filter_cons. unfold is_row at 1.
  case_bool_decide; case_decide; try done; cbn [length]; by rewrite IH.
Qed.

Lemma elem_of_indices_where_is_row (marker : string) (log : list string) i :
  i ∈ indices_where (is_row marker) 0 log ↔ log !! i = Some marker.
Proof.
  rewrite elem_of_indices_where, Nat.sub_0_r. split.
  - intros (_ & row & Hrow & His). unfold is_row in His.
    apply bool_decide_eq_true in His. by subst.
  - intros Hrow. split; [lia|]. exists marker. split; [done|].
    by apply bool_decide_eq_true.
Qed.

Lemma sorted_head_le (l : list nat) (x0 x : nat) :
  StronglySorted lt l → l !! 0 = Some x0 → x ∈ l → x0 ≤ x.
Proof.
  destruct l as [|y l]; [done|]. intros Hsorted [= ->] Hin.
  apply StronglySorted_inv in Hsorted as [_ Hall].
  apply elem_of_cons in Hin as [->|Hin]; [done|].
  rewrite Forall_forall in Hall. specialize (Hall x Hin). lia.
Qed.

Lemma end_before_start_indices (log : list string) :
  end_before_start log →
  ∃ s0 e0,
    indices_where (is_row LOGFRAME_START) 0 log !! 0 = Some s0 ∧
    indices_where (is_row LOGFRAME_END) 0 log !! 0 = Some e0 ∧
    e0 ≤ s0.
Proof.
  intros [[i_start Hstart]%list_elem_of_lookup_1 (i_end & Hend & Hbefore)].
  apply elem_of_indices_where_is_row in Hstart, Hend.
  destruct (indices_where (is_row LOGFRAME_START) 0 log) as [|s0 starts] eqn:Hs.
  { by apply not_elem_of_nil in Hstart. }
  destruct (indices_where (is_row LOGFRAME_END) 0 log) as [|e0 ends] eqn:He.
  { by apply not_elem_of_nil in Hend. }
  exists s0, e0. split; [done|]. split; [done|].
  assert (e0 ≤ i_end).
  { apply (sorted_head_le (e0 :: ends)); [|done|done].
    rewrite <- He. apply indices_where_sorted. }
  assert (log !! s0 = Some LOGFRAME_START) as Hs0.
  { apply elem_of_indices_where_is_row. rewrite Hs. by left. }
  destruct (decide (s0 < i_end)) as [Hlt|Hge]; [|lia].
  by destruct (Hbefore s0 Hlt).
Qed.

(** X15: the format error of both conversions, on the lines of the
    log.  When the sanitized log has different numbers of start and of
    end markers, or an end marker that no start marker precedes while
    it has a start marker, [text_to_csv] raises the [ValueError]
    "LogFrame Starts and Ends do not match up.", and so does
    [text_to_rcsv]; for a task that [replace_dict] does not hold,
    [text_to_rcsv] raises [AttributeError] instead, before it looks at
    the log. *)
Theorem unmatched_markers_format_error (list_set : list string → list string)
    (cfg : pickle) (text_data : list string) (edat_file task : string) :
  count_rows LOGFRAME_START (_strip <$> text_data)
    ≠ count_rows LOGFRAME_END (_strip <$> text_data)
  ∨ end_before_start (_strip <$> text_data) →
  text_to_csv list_set text_data = Raise (ValueError MISMATCH) ∧
  text_to_rcsv list_set cfg text_data edat_file task
  = match replace_dict cfg !! task with
    | Some _ => Raise (ValueError MISMATCH)
    | None => Raise AttributeError
    end.
Proof.
  intros Hbad.
  assert (Hcheck : check_frames
            (indices_where (is_row LOGFRAME_START) 0 (_strip <$> text_data))
            (indices_where (is_row LOGFRAME_END) 0 (_strip <$> text_data))
          = Raise (ValueError MISMATCH)).
  { destruct Hbad as [Hcount|Horder].
    - apply check_frames_count_mismatch.
      by rewrite !length_indices_where_is_row.
    - destruct (end_before_start_indices _ Horder) as (s0 & e0 & Hs & He & Hle).
      by apply (check_frames_first_misordered _ _ s0 e0). }
  destruct (check_frames_raise_propagates list_set cfg text_data edat_file task
              _ Hcheck) as [Hcsv Hrcsv].
  split; [done|].
  destruct (replace_dict cfg !! task) as [by_suffix|] eqn:Htask.
  - apply Hrcsv. by eexists.
  - unfold text_to_rcsv. by rewrite Htask.
Qed.

Lemma unmatched_markers_format_error_witness :
  text_to_csv remove_dups
    ["*** LogFrame End ***"; "*** LogFrame Start ***"; "Stim: a";
     "*** LogFrame End ***"; "*** LogFrame Start ***"]
    = Raise (ValueError MISMATCH) ∧
  text_to_rcsv remove_dups cfg_demo
    ["*** LogFrame Start ***"; "Stim: a"; "*** LogFrame End ***";
     "*** LogFrame Start ***"; "Stim: b"] "s1.edat2" "T"
    = Raise (ValueError MISMATCH).
Proof.
  split.
  - apply (unmatched_markers_format_error remove_dups cfg_demo
             ["*** LogFrame End ***"; "*** LogFrame Start ***"; "Stim: a";
              "*** LogFrame End ***"; "*** LogFrame Start ***"] "s1.edat2" "T").
    right. split.
    + apply (list_elem_of_lookup_2 _ 1). reflexivity.
    + exists 0. split; [reflexivity|]. intros j Hj. lia.
  - apply (unmatched_markers_format_error remove_dups cfg_demo
             ["*** LogFrame Start ***"; "Stim: a"; "*** LogFrame End ***";
              "*** LogFrame Start ***"; "Stim: b"] "s1.edat2" "T").
    left. vm_compute. lia.
Defined.

(** ** What a successful reduced conversion needs of the configuration *)

(** A table that [_transpose] accepts is not empty, and each row of the
    result holds one cell per list of the table. *)
Lemma transpose_Ok_rows (list_ t : list (list string)) :
  _transpose list_ = Ok t →
  list_ ≠ [] ∧ Forall (λ row, length row = length list_) t.
Proof.
  unfold _transpose.
  intros (first & Hfirst & (tr & Htr & [= <-])%bind_Ok_inv)%bind_Ok_inv.
  split; [by intros -> |].
  apply Forall_forall. intros row [_ Hin]%list_elem_of_filter.
  apply mapM_Ok_inv in Htr.
  apply list_elem_of_lookup_1 in Hin as [j Hj].
  destruct (Forall2_lookup_r _ _ _ _ _ Htr Hj) as (i & _ & Hrow).
  by apply mapM_Ok_length in Hrow.
Qed.

Lemma merge_groups_Ok_config (header_row : list string)
    (data_matrix : list (list string))
    (columns_to_merge : option (list (list string)))
    (merge_col_names_list : option (list string)) merged_data :
  merge_groups header_row data_matrix columns_to_merge merge_col_names_list
    = Ok merged_data →
  ∃ names, merge_col_names_list = Some names ∧
           (names ≠ [] → is_Some columns_to_merge).
Proof.
  unfold merge_groups. destruct merge_col_names_list as [names|]; [|done].
  intros H. exists names. split; [done|]. intros Hnames.
  destruct columns_to_merge as [groups|]; [by eexists|].
  by destruct names.
Qed.

Lemma reduce_table_Ok_config (header_list : option (list string))
    (replacements : option (gmap string string))
    (columns_to_merge : option (list (list string)))
    (merge_col_names_list : option (list string))
    (null_column_names : option (list string))
    (data_matrix out : list (list string)) :
  reduce_table header_list replacements columns_to_merge merge_col_names_list
               null_column_names data_matrix = Ok out →
  ∃ hl names nulls,
    header_list = Some hl ∧ is_Some replacements ∧
    merge_col_names_list = Some names ∧
    (names ≠ [] → is_Some columns_to_merge) ∧
    null_column_names = Some nulls ∧
    nulls ≠ [] ∧ Forall (λ column, column ∈ hl) nulls.
Proof.
  intros (hl & header_index & out_matrix & nulls_to_merge & merged_nulls_list
          & Hselect & Hcols & Hmerge & _)%reduce_table_prunes.
  unfold select_table in Hselect.
  apply bind_Ok_inv in Hselect as (t & Ht & H).
  apply bind_Ok_inv in H as (row0 & Hrow0 & H).
  apply bind_Ok_inv in H as (header_row & Hrename & H).
  apply bind_Ok_inv in H as (hl0 & Hhl & H).
  apply bind_Ok_inv in H as (header_index0 & Hindex & H).
  apply bind_Ok_inv in H as (merged_data & Hmerged & H).
  apply bind_Ok_inv in H as (out_matrix0 & _ & H).
  apply bind_Ok_inv in H as (out_matrix1 & _ & H).
  injection H as -> -> ->.
  unfold null_check_columns in Hcols.
  apply bind_Ok_inv in Hcols as (nulls & Hnulls & H).
  apply bind_Ok_inv in H as (null_column_index & Hnull_index & Hto_merge).
  destruct header_list as [hl'|]; [|done]. injection Hhl as ->.
  destruct null_column_names as [nulls'|]; [|done]. injection Hnulls as ->.
  destruct (merge_groups_Ok_config _ _ _ _ _ Hmerged) as (names & -> & Hgroups).
  exists hl, names, nulls. split; [done|]. split.
  { destruct replacements as [d|]; [by eexists|].
    destruct (transpose_Ok_rows _ _ Ht) as [Hne Hrows].
    unfold getitem in Hrow0. destruct (t !! 0) as [r|] eqn:Ht0; [|done].
    injection Hrow0 as ->.
    rewrite Forall_forall in Hrows.
    specialize (Hrows row0 (list_elem_of_lookup_2 _ _ _ Ht0)).
    destruct row0 as [|item row0]; [|done].
    by destruct data_matrix. }
  split; [done|]. split; [done|]. split; [done|]. split.
  - intros ->. apply mapM_Ok_inv, Forall2_nil_inv_l in Hnull_index as ->.
    apply mapM_Ok_inv, Forall2_nil_inv_l in Hto_merge as ->. done.
  - apply mapM_Ok_inv in Hnull_index. apply Forall2_Forall_l with
      (Q := λ column, column ∈ hl) in Hnull_index; [done|].
    apply Forall_forall. intros i _ column (j & Hj & _)%bind_Ok_inv.
    unfold index in Hj. destruct (list_index column hl) as [k|] eqn:Hk; [|done].
    apply list_index_lookup in Hk. by eapply list_elem_of_lookup_2.
Qed.

(** X16: a reduced conversion can only succeed with a complete
    configuration.  Whenever [text_to_rcsv] returns rows, the task has
    an entry in [headers], in [merge_col_names] and in [null_cols],
    [replace_dict] has an entry for the task and in it one for the
    extension of the edat file name, [merge_cols] has an entry unless
    no merged column is named, and [null_cols] names at least one
    column, all of them among the task's headers. *)
Theorem rcsv_success_needs_config (list_set : list string → list string)
    (cfg : pickle) (text_data : list string) (edat_file task : string)
    (out : list (list string)) :
  text_to_rcsv list_set cfg text_data edat_file task = Ok out →
  ∃ header_list by_suffix names null_names,
    headers cfg !! task = Some header_list ∧
    replace_dict cfg !! task = Some by_suffix ∧
    is_Some (by_suffix !! (splitext edat_file).2) ∧
    merge_col_names cfg !! task = Some names ∧
    (names ≠ [] → is_Some (merge_cols cfg !! task)) ∧
    null_cols cfg !! task = Some null_names ∧
    null_names ≠ [] ∧
    Forall (λ column, column ∈ header_list) null_names.
Proof.
  unfold text_to_rcsv.
  intros (by_suffix & Htask & H)%bind_Ok_inv.
  apply bind_Ok_inv in H as (dense & _ & H).
  apply bind_Ok_inv in H as (data_matrix & _ & H).
  apply reduce_table_Ok_config in H
    as (hl & names & nulls & Hhl & Hrepl & Hnames & Hgroups & Hnulls & Hne & Hin).
  destruct (replace_dict cfg !! task) as [by_suffix'|]; [|done].
  injection Htask as ->.
  by exists hl, by_suffix, names, nulls.
Qed.

Lemma rcsv_success_needs_config_witness :
  ∃ header_list by_suffix names null_names,
    headers cfg_demo !! "T" = Some header_list ∧
    replace_dict cfg_demo !! "T" = Some by_suffix ∧
    is_Some (by_suffix !! (splitext "s1.edat2").2) ∧
    merge_col_names cfg_demo !! "T" = Some names ∧
    (names ≠ [] → is_Some (merge_cols cfg_demo !! "T")) ∧
    null_cols cfg_demo !! "T" = Some null_names ∧
    null_names ≠ [] ∧
    Forall (λ column, column ∈ header_list) null_names.
Proof.
  apply (rcsv_success_needs_config remove_dups cfg_demo
    ["*** LogFrame Start ***"; "Stim: a"; "Procedure: P"; "*** LogFrame End ***";
     "*** LogFrame Start ***"; "Stim: b"; "Procedure: Q"; "*** LogFrame End ***";
     "*** LogFrame Start ***"; "Stim: c"; "Procedure: Q"; "*** LogFrame End ***";
     "*** LogFrame Start ***"; "Stim: d"; "Procedure: R"; "*** LogFrame End ***";
     "*** LogFrame Start ***"; "Stim: e"; "Procedure: R"; "*** LogFrame End ***"]
    "s1.edat2" "T"
    [["Stim"; "Proc"]; ["a"; "P"]; ["b"; "Q"]; ["c"; "Q"]]).
  vm_compute. reflexivity.
Defined.

(** ** The shape of what [text_to_csv] writes, on any log *)

(** X17: whenever [text_to_csv] returns rows, for whatever log, their
    number is the number of start markers of the sanitized log less
    one: with the header row, the trials but the last two.  The rows
    all have one and the same number of cells, which is at least one. *)
Theorem text_to_csv_shape (list_set : list string → list string)
    (text_data : list string) (out : list (list string)) :
  text_to_csv list_set text_data = Ok out →
  length out = count_rows LOGFRAME_START (_strip <$> text_data) - 1 ∧
  ∃ width, 0 < width ∧ Forall (λ row, length row = width) out.
Proof.
  unfold text_to_csv.
  intros (dense & Hdense & H)%bind_Ok_inv.
  apply bind_Ok_inv in H as (filled & Hfilled & Hout).
  apply dense_table_same_length in Hdense.
  rewrite length_indices_where_is_row in Hdense.
  pose proof (csv_columns_same_length _ _ _ Hdense Hfilled) as Hsame.
  destruct (transpose_Ok_rows _ _ Hout) as [Hne Hrows].
  destruct filled as [|first filled']; [done|].
  destruct (transpose_cells (first :: filled') first eq_refl)
    as (t & Ht & Hlen & _).
  { eapply Forall_impl; [exact Hsame|]. cbn. intros col ->.
    by apply Forall_inv in Hsame as ->. }
  rewrite Ht in Hout. injection Hout as ->.
  split.
  - rewrite Hlen. apply Forall_inv in Hsame as ->. lia.
  - exists (length (first :: filled')). split; [cbn; lia|done].
Qed.

Lemma text_to_csv_shape_witness :
  ∃ out,
    text_to_csv remove_dups
      ["*** LogFrame Start ***"; "Stim: a"; "*** LogFrame End ***";
       "*** LogFrame Start ***"; "*** LogFrame End ***";
       "*** LogFrame Start ***"; "Resp: 1"; "*** LogFrame End ***"] = Ok out ∧
    length out = 2.
Proof.
  eexists. split; [vm_compute; reflexivity|].
  apply (text_to_csv_shape remove_dups
    ["*** LogFrame Start ***"; "Stim: a"; "*** LogFrame End ***";
     "*** LogFrame Start ***"; "*** LogFrame End ***";
     "*** LogFrame Start ***"; "Resp: 1"; "*** LogFrame End ***"]).
  vm_compute. reflexivity.
Defined.
(** ** Worked examples *)

Example merge_all_else_example :
  _merge_lists [["NULL"; "X"; "NULL"]; ["Y"; "NULL"; "Z"]] "all_else"
  = Ok ["Y"; "X"; "Z"].
Proof. reflexivity. Qed.

Example merge_all_null_example :
  _merge_lists [["NULL"; "X"; "NULL"]; ["Y"; "NULL"; "Z"]] "all_null"
  = Ok ["NULL"; "NULL"; "NULL"].
Proof. reflexivity. Qed.

Example merge_lists_empty : _merge_lists [] "all_else" = Raise IndexError.
Proof. reflexivity. Qed.

Example splitext_examples :
  splitext "a/b.c/run1.txt" = ("a/b.c/run1", ".txt") ∧
  splitext ".csv" = (".csv", "") ∧
  splitext "dir.d/..csv" = ("dir.d/..csv", "") ∧
  splitext "x.csv" = ("x", ".csv") ∧
  splitext "a.b/c" = ("a.b/c", "").
Proof. repeat split; reflexivity. Qed.

Example strip_line : _strip ("  Stim: a.bmp" +:+ TAB +:+ NL) = "  Stim: a.bmp".
Proof. reflexivity. Qed.

(** Three trials: the cut leaves the header row and the first trial,
    and the trailing fill has copied the last value of [Session]. *)
Example csv_three_trials :
  text_to_csv remove_dups
    ["*** Header Start ***"; "*** LogFrame Start ***"; "Stim: a.bmp";
     "Resp: 1"; "*** LogFrame End ***"; "*** LogFrame Start ***";
     "Stim: b.bmp"; "*** LogFrame End ***"; "*** LogFrame Start ***";
     "Session: 7"; "*** LogFrame End ***"]
  = Ok [["Resp"; "Stim"; "Session"]; ["1"; "a.bmp"; "7"]].
Proof. vm_compute. reflexivity. Qed.

(** Policy A of [text_to_rcsv]. *)
Example trailing_fill_example :
  fill_column [] ["NAME"; "NULL"; "NULL"; "V"] = Ok ["NAME"; "V"; "V"; "V"].
Proof. reflexivity. Qed.

(** The block fill with values of two characters, and with an empty
    value: the column grows, or shrinks until a read fails. *)
Example block_fill_two_characters :
  fill_column ["NAM"] ["NAME"; "NULL"; "AB"; "NULL"; "NULL"; "CD"]
  = Ok ["NAME"; "A"; "B"; "N"; "U"; "L"; "L"; "N"; "U"; "L"; "L"; "NULL"; "CD"].
Proof. reflexivity. Qed.

Example block_fill_empty_value :
  fill_column ["NAM"] ["NAME"; "NULL"; ""; "NULL"; "x"] = Raise IndexError.
Proof. reflexivity. Qed.

(** A mismatch of the marker counts, and an end marker first. *)
Example frames_count_mismatch :
  text_to_csv remove_dups
    ["*** LogFrame Start ***"; "Stim: 1"; "*** LogFrame End ***";
     "*** LogFrame Start ***"; "Stim: 2"]
  = Raise (ValueError MISMATCH).
Proof. reflexivity. Qed.

Example frames_end_first :
  text_to_csv remove_dups
    ["*** LogFrame End ***"; "Stim: 1"; "*** LogFrame Start ***"]
  = Raise (ValueError MISMATCH).
Proof. reflexivity. Qed.

(** A full reduced conversion: the rows where [Stim] is null would be
    removed; here none is. *)
Example rcsv_five_trials :
  text_to_rcsv remove_dups cfg_demo
    ["*** LogFrame Start ***"; "Stim: a"; "Procedure: P"; "*** LogFrame End ***";
     "*** LogFrame Start ***"; "Stim: b"; "Procedure: Q"; "*** LogFrame End ***";
     "*** LogFrame Start ***"; "Stim: c"; "Procedure: Q"; "*** LogFrame End ***";
     "*** LogFrame Start ***"; "Stim: d"; "Procedure: R"; "*** LogFrame End ***";
     "*** LogFrame Start ***"; "Stim: e"; "Procedure: R"; "*** LogFrame End ***"]
    "s1.edat2" "T"
  = Ok [["Stim"; "Proc"]; ["a"; "P"]; ["b"; "Q"]; ["c"; "Q"]].
Proof. vm_compute. reflexivity. Qed.

(** [repr]: the quote chosen, and the escapes. *)
Example repr_examples :
  repr "Stim" = "'Stim'" ∧
  repr "it's" = String QUOTE2 ("it's" +:+ String QUOTE2 "") ∧
  repr (String BACKSLASH "n")
    = String QUOTE1 (String BACKSLASH (String BACKSLASH "n'")) ∧
  repr (String "009"%char "a") = String QUOTE1 (String BACKSLASH "ta'") ∧
  repr (String "001"%char "") = String QUOTE1 (String BACKSLASH "x01'") ∧
  repr (String "255"%char "") = String QUOTE1 (String BACKSLASH "xff'").
Proof. repeat split. Qed.
